(** * homebrew-sync: a shallow embedding of [homebrew-sync.py]

    The development follows the script function by function.  Python
    strings are sequences of Unicode code points, the external package
    tool is an oracle over an abstract world, and every function of the
    script that logs, mutates the report or may raise runs in a small
    state-and-exception monad. *)

From Stdlib Require Import ZArith NArith List String Ascii Lia.
From stdpp Require Import base option list sorting gmap strings.

Local Open Scope N_scope.

(** ** Python strings *)

Module Py.

(** A [str] is a sequence of code points. *)
Abbreviation char := N (only parsing).
Abbreviation str := (list N) (only parsing).

(** An ASCII literal of the source, as a [str]. *)
Definition lit (s : string) : str :=
  List.map N_of_ascii (list_ascii_of_string s).
Arguments lit : simpl never.

(** The line boundaries of [str.splitlines]: LF, VT, FF, CR, FS, GS, RS,
    NEL, LINE SEPARATOR, PARAGRAPH SEPARATOR. *)
Definition is_linebreak (c : char) : bool :=
  (c =? 10) || (c =? 11) || (c =? 12) || (c =? 13) ||
  (c =? 28) || (c =? 29) || (c =? 30) || (c =? 133) ||
  (c =? 8232) || (c =? 8233).

(** The characters [str.strip()] removes: those for which [str.isspace]
    holds. *)
Definition is_space (c : char) : bool :=
  ((9 <=? c) && (c <=? 13)) || ((28 <=? c) && (c <=? 32)) ||
  (c =? 133) || (c =? 160) || (c =? 5760) ||
  ((8192 <=? c) && (c <=? 8202)) || (c =? 8232) || (c =? 8233) ||
  (c =? 8239) || (c =? 8287) || (c =? 12288).

(** [s.splitlines()]: [cur] holds the current line, reversed.  A CR
    directly followed by LF is one boundary; a last line is produced only
    when it is not empty. *)
Fixpoint splitlines_from (cur : str) (s : str) : list str :=
  match s with
  | [] => match cur with [] => [] | _ => [rev cur] end
  | c :: s' =>
      if is_linebreak c then
        rev cur ::
          match s' with
          | d :: s'' =>
              if (c =? 13) && (d =? 10) then splitlines_from [] s''
              else splitlines_from [] s'
          | [] => splitlines_from [] s'
          end
      else splitlines_from (c :: cur) s'
  end.

Definition splitlines (s : str) : list str := splitlines_from [] s.
Arguments splitlines : simpl never.

(** [s.strip()] *)
Fixpoint lstrip (s : str) : str :=
  match s with
  | c :: s' => if is_space c then lstrip s' else s
  | [] => []
  end.

Definition rstrip (s : str) : str := rev (lstrip (rev s)).

Definition strip (s : str) : str := rstrip (lstrip s).
Arguments strip : simpl never.

(** [sep.join(parts)] *)
Fixpoint join (sep : str) (parts : list str) : str :=
  match parts with
  | [] => []
  | [p] => p
  | p :: ps => p ++ sep ++ join sep ps
  end.

(** [s.startswith(p)] and [p in s] on strings *)
Fixpoint startswith (p s : str) : bool :=
  match p, s with
  | [], _ => true
  | a :: p', b :: s' => (a =? b) && startswith p' s'
  | _ :: _, [] => false
  end.

Fixpoint contains (p s : str) : bool :=
  startswith p s ||
  match s with
  | [] => false
  | _ :: s' => contains p s'
  end.

(** Truth value of a list or string: non-empty. *)
Definition truthy {A} (l : list A) : bool :=
  match l with [] => false | _ => true end.

End Py.

Import Py.

(** ** Exceptions, the adapter and the state of a run *)

(** The exceptions of a run.  All of them are instances of Python's
    [Exception], so an [except Exception] clause catches each of them. *)
Inductive exn : Type :=
| ValueError (msg : str)
| CalledProcessError (returncode : Z) (cmd : str)
| AdapterError (what : str).

Inductive outcome (A : Type) : Type :=
| Ret (a : A)
| Raise (e : exn).
Arguments Ret {A} a.
Arguments Raise {A} e.

(** What [subprocess.run] returns. *)
Record CompletedProcess : Type := mkCompleted { returncode : Z; stdout : str }.

Inductive level : Type := INFO | WARNING | ERROR.

(** The values handed to [json.dumps]. *)
#[warnings="-register-all"]
Inductive json : Type :=
| JString (s : str)
| JArray (items : list json)
| JObject (members : list (str * json)).

Inductive printed : Type :=
| Blank
| Dump (doc : json).

Definition loc : Type := nat.

Record state (W : Type) : Type := mkState {
  world : W;
  heap : gmap nat (list str);       (* the list objects of the report *)
  log : list (level * str);         (* records handed to [logging] *)
  issued : list str;                (* commands run by [run_live], in order *)
  printed_out : list printed        (* what [print] wrote *)
}.
Arguments mkState {W} _ _ _ _ _.
Arguments world {W} _.
Arguments heap {W} _.
Arguments log {W} _.
Arguments issued {W} _.
Arguments printed_out {W} _.

(** Read-only queries and effectful steps. *)
Definition Query (W : Type) (A : Type) : Type := W -> outcome A.
Definition Step (W : Type) (A : Type) : Type := state W -> outcome A * state W.

(** The external collaborators: the shell running the package tool and the
    file system.  A captured command and a path test only read the world; a
    live command may change it.  Each call either completes or raises. *)
Record Adapter (W : Type) : Type := mkAdapter {
  shell_capture : str -> Query W CompletedProcess;
  shell_live : str -> W -> outcome CompletedProcess * W;
  path_exists : str -> Query W bool;
  path_home : Query W str
}.
Arguments shell_capture {W} _ _ _.
Arguments shell_live {W} _ _ _.
Arguments path_exists {W} _ _ _.
Arguments path_home {W} _ _.

Section Monads.
Context {W : Type}.

Definition q_ret {A} (a : A) : Query W A := fun _ => Ret a.
Definition q_bind {A B} (m : Query W A) (k : A -> Query W B) : Query W B :=
  fun w => match m w with
           | Ret a => k a w
           | Raise e => Raise e
           end.

Definition m_ret {A} (a : A) : Step W A := fun s => (Ret a, s).
Definition m_bind {A B} (m : Step W A) (k : A -> Step W B) : Step W B :=
  fun s => match m s with
           | (Ret a, s') => k a s'
           | (Raise e, s') => (Raise e, s')
           end.

Definition raise {A} (e : exn) : Step W A := fun s => (Raise e, s).

(** [try: body  except Exception: handler] *)
Definition try_except {A} (body : Step W A) (handler : Step W A) : Step W A :=
  fun s => match body s with
           | (Ret a, s') => (Ret a, s')
           | (Raise _, s') => handler s'
           end.

Definition query {A} (q : Query W A) : Step W A := fun s => (q (world s), s).
End Monads.

#[global] Instance Q_ret {W} : MRet (Query W) := @q_ret W.
#[global] Instance Q_bind {W} : MBind (Query W) := fun A B k m => q_bind m k.
#[global] Instance M_ret {W} : MRet (Step W) := @m_ret W.
#[global] Instance M_bind {W} : MBind (Step W) := fun A B k m => m_bind m k.


(** ** The script *)

(** Terminal colours (class [Color]). *)
Module Color.
Definition RESET : str := [27] ++ lit "[0m".
Definition BOLD : str := [27] ++ lit "[1m".
Definition GREEN : str := [27] ++ lit "[92m".
Definition RED : str := [27] ++ lit "[91m".
Definition YELLOW : str := [27] ++ lit "[93m".
Definition CYAN : str := [27] ++ lit "[96m".
End Color.

(** The [result] dictionary of [main].  Its nested dictionaries are never
    shared, so they are fields; its lists are objects of the heap, so that
    two keys may hold the same list.  The [info] list is only ever replaced
    as a whole and is kept by value. *)
Record install_lists : Type := mkInstall { i_formula : loc; i_cask : loc }.
Record upgrade_lists : Type := mkUpgrade { u_formula : loc }.
Record outcome_lists : Type := mkLists {
  install : install_lists;
  upgrade : upgrade_lists;
  cask : loc
}.
Record Report : Type := mkReport {
  success : outcome_lists;
  error : outcome_lists;
  info : list (list (str * str))
}.

(** A future holds what its call produced: a value or an exception. *)
Record future (B : Type) : Type := mkFuture { fut_outcome : outcome B }.
Arguments mkFuture {B} _.
Arguments fut_outcome {B} _.

Record executor : Type := mkExecutor { max_workers : Z }.

(** [as_completed(futures)] yields every future once, in the order in which
    the workers finish: [sched] lists the positions of the futures in that
    order. *)
Definition as_completed {X} (sched : list nat) (futures : list X) : list X :=
  omap (fun i => futures !! i) sched.

(** A completion order of [n] futures. *)
Definition completion_order (n : nat) (sched : list nat) : Prop :=
  sched ≡ₚ seq 0 n.

Section Script.
Context {W : Type} (adapter : Adapter W).

Abbreviation M := (Step W).
Abbreviation Q := (Query W).

(** *** State access *)

Definition logging (lv : level) (text : str) : M unit :=
  fun s => (Ret tt, mkState (world s) (heap s) (log s ++ [(lv, text)])
                            (issued s) (printed_out s)).

Definition print (p : printed) : M unit :=
  fun s => (Ret tt, mkState (world s) (heap s) (log s) (issued s)
                            (printed_out s ++ [p])).

(** A list display [[]]: a new list object. *)
Definition new_list : M loc :=
  fun s => let l := fresh (dom (heap s)) in
           (Ret l, mkState (world s) (<[l := []]> (heap s)) (log s)
                           (issued s) (printed_out s)).

(** [lst.extend(xs)] *)
Definition extend (l : loc) (xs : list str) : M unit :=
  fun s => (Ret tt, mkState (world s) (alter (fun old => old ++ xs) l (heap s))
                            (log s) (issued s) (printed_out s)).

Definition deref (h : gmap nat (list str)) (l : loc) : list str :=
  default [] (h !! l).

(** *** Logging helpers (lines 29-39) *)

Definition log_info (msg : str) : M unit :=
  logging INFO ([0x2139; 0xfe0f] ++ lit " " ++ msg).

Definition log_success (msg : str) : M unit :=
  logging INFO (Color.GREEN ++ [0x2705] ++ lit " " ++ msg ++ Color.RESET).

Definition log_error (msg : str) : M unit :=
  logging ERROR (Color.RED ++ [0x274c] ++ lit " " ++ msg ++ Color.RESET).

Definition log_warning (msg : str) : M unit :=
  logging WARNING (Color.YELLOW ++ [0x26a0; 0xfe0f] ++ lit " " ++ msg ++ Color.RESET).

(** *** Shell wrappers (lines 42-46) *)

Definition checked (check : bool) (cmd : str) (o : outcome CompletedProcess)
  : outcome CompletedProcess :=
  match o with
  | Ret p =>
      if check && negb (returncode p =? 0)%Z
      then Raise (CalledProcessError (returncode p) cmd)
      else Ret p
  | Raise e => Raise e
  end.

Definition run_live (cmd : str) (check : bool) : M CompletedProcess :=
  fun s => let '(o, w') := shell_live adapter cmd (world s) in
           (checked check cmd o,
            mkState w' (heap s) (log s) (issued s ++ [cmd]) (printed_out s)).

Definition run_capture (cmd : str) (check : bool) : Q CompletedProcess :=
  fun w => checked check cmd (shell_capture adapter cmd w).

(** *** The worker pool *)

(** [ThreadPoolExecutor(max_workers=n)] refuses a pool without workers. *)
Definition ThreadPoolExecutor (n : Z) : M executor :=
  if (n <=? 0)%Z
  then raise (ValueError (lit "max_workers must be greater than 0"))
  else mret (mkExecutor n).

(** [executor.submit(fn, ...)]: the call runs on a worker; it only reads
    the world. *)
Definition submit {B} (ex : executor) (fn : Q B) : M (future B) :=
  fun s => (Ret (mkFuture (fn (world s))), s).

(** [future.result()] returns the value or raises the call's exception. *)
Definition result {B} (f : future B) : M B :=
  fun s => (fut_outcome f, s).

(** A dictionary comprehension [{submit(item): item for item in items}]. *)
Fixpoint submit_each {A B} (ex : executor) (fn : A -> Q B) (items : list A)
  : M (list (future B * A)) :=
  match items with
  | [] => mret []
  | item :: rest =>
      f ← submit ex (fn item);
      fs ← submit_each ex fn rest;
      mret ((f, item) :: fs)
  end.

(** [for x in xs: acc = body x acc] *)
Fixpoint for_loop {A S} (xs : list A) (body : A -> S -> M S) (acc : S) : M S :=
  match xs with
  | [] => mret acc
  | x :: xs' => acc' ← body x acc; for_loop xs' body acc'
  end.

(** [any(m() for m in methods)] *)
Fixpoint py_any (methods : list (Q bool)) : Q bool :=
  match methods with
  | [] => mret false
  | m :: rest => b ← m; if b : bool then mret true else py_any rest
  end.

(** *** Caveats (lines 84-103) *)

Definition get_caveat (brew name : str) (is_cask : bool)
  : Q (option (list (str * str))) :=
  let flag := if is_cask then lit "--cask" else [] in
  r ← run_capture (brew ++ lit " info " ++ flag ++ lit " --caveats " ++ name) false;
  let caveat := strip (stdout r) in
  mret (if truthy caveat
        then Some [(if is_cask then lit "cask" else lit "formula", name);
                   (lit "caveat", caveat)]
        else None).

Definition collect_caveats_parallel (sched : list nat) (brew : str)
    (formulae casks : list str) : M (list (list (str * str))) :=
  log_info ([0x1f50d] ++ lit " Collecting caveats in parallel...");;
  let items := fmap (fun name => (name, false)) formulae
               ++ fmap (fun name => (name, true)) casks in
  ex ← ThreadPoolExecutor (Z.min 8 (Z.of_nat (length items)));
  futures ← submit_each ex (fun '(name, is_cask) => get_caveat brew name is_cask) items;
  for_loop (as_completed sched futures)
    (fun '(fut, _) caveats =>
       r ← result fut;
       match r with
       | Some entry => mret (caveats ++ [entry])
       | None => mret caveats
       end)
    [].

(** *** Brew operations (lines 106-171) *)

Definition update_and_upgrade (brew : str) (res : Report) : M unit :=
  log_info (lit "Updating Homebrew... " ++ [0x1f504]);;
  run_live (brew ++ lit " update") false;;
  log_info (lit "Checking for outdated formulae... " ++ [0x1f4c8]);;
  r ← query (run_capture (brew ++ lit " outdated --formula --quiet") false);
  let outdated := splitlines (stdout r) in
  if truthy outdated then
    log_info (lit "Upgrading: " ++ join (lit " ") outdated ++ lit " " ++ [0x23eb]);;
    try_except
      (run_live (brew ++ lit " upgrade " ++ join (lit " ") outdated) true;;
       extend (u_formula (upgrade (success res))) outdated)
      (extend (u_formula (upgrade (error res))) outdated;;
       log_error (lit "One or more upgrades failed."))
  else
    log_info (lit "No formulae to upgrade. " ++ [0x1f44d]).

Definition install_formulae (brew : str) (formulae : list str) (res : Report)
  : M unit :=
  r ← query (run_capture (brew ++ lit " list --formula") false);
  let installed : gset (list N) := list_to_set (splitlines (stdout r)) in
  let to_install := filter (fun name => name ∉ installed) formulae in
  if truthy to_install then
    log_info (lit "Installing formulae: " ++ join (lit " ") to_install
              ++ lit " " ++ [0x1f4e6]);;
    try_except
      (run_live (brew ++ lit " install " ++ join (lit " ") to_install) true;;
       extend (i_formula (install (success res))) to_install)
      (extend (i_formula (install (error res))) to_install;;
       log_error (lit "Failed to install one or more formulae."))
  else mret tt.

Definition is_cask_installed (brew name : str) : Q bool :=
  let methods : list (Q bool) :=
    [ (r ← run_capture (brew ++ lit " list --cask") false;
       mret (bool_decide (name ∈ splitlines (stdout r))));
      (r ← run_capture (brew ++ lit " info --cask " ++ name) false;
       mret (negb (contains (lit "Not installed") (stdout r))));
      (home ← path_home adapter;
       py_any (fmap (fun p => path_exists adapter p)
                 [lit "/Applications/" ++ name ++ lit ".app";
                  home ++ lit "/Applications/" ++ name ++ lit ".app"])) ] in
  py_any methods.

Definition filter_missing_casks_parallel (sched : list nat) (brew : str)
    (casks : list str) : M (list str) :=
  log_info ([0x1f9ea] ++ lit " Checking for installed casks in parallel...");;
  ex ← ThreadPoolExecutor (Z.min 8 (Z.of_nat (length casks)));
  futures ← submit_each ex (fun name => is_cask_installed brew name) casks;
  for_loop (as_completed sched futures)
    (fun '(fut, name) to_install =>
       try_except
         (r ← result fut;
          if negb r then mret (to_install ++ [name]) else mret to_install)
         (log_warning (lit "Failed to check cask: " ++ name);;
          mret (to_install ++ [name])))
    [].

Definition install_casks (sched : list nat) (brew : str) (casks : list str)
    (res : Report) : M unit :=
  to_install ← filter_missing_casks_parallel sched brew casks;
  if truthy to_install then
    log_info (lit "Installing casks: " ++ join (lit " ") to_install
              ++ lit " " ++ [0x1f37a]);;
    try_except
      (run_live (brew ++ lit " install --cask " ++ join (lit " ") to_install) true;;
       extend (i_cask (install (success res))) to_install)
      (extend (i_cask (install (error res))) to_install;;
       log_error (lit "Failed to install one or more casks."))
  else mret tt.

(** *** Final output (lines 174-180) *)

Definition json_names (h : gmap nat (list str)) (l : loc) : json :=
  JArray (fmap JString (deref h l)).

Definition json_lists (h : gmap nat (list str)) (o : outcome_lists) : json :=
  JObject
    [ (lit "install",
       JObject [ (lit "formula", json_names h (i_formula (install o)));
                 (lit "cask", json_names h (i_cask (install o))) ]);
      (lit "upgrade",
       JObject [ (lit "formula", json_names h (u_formula (upgrade o))) ]);
      (lit "cask", json_names h (cask o)) ].

Definition json_entry (e : list (str * str)) : json :=
  JObject (fmap (fun kv => (fst kv, JString (snd kv))) e).

Definition json_of_result (h : gmap nat (list str)) (res : Report) : json :=
  JObject
    [ (lit "success", json_lists h (success res));
      (lit "error", json_lists h (error res));
      (lit "info", JArray (fmap json_entry (info res))) ].

(** The document [json.dumps(result, ...)] serialises. *)
Definition dumps (res : Report) : M json :=
  fun s => (Ret (json_of_result (heap s) res), s).

(** [d["cask"] = d["install"]["cask"]]: the key now holds the same list. *)
Definition alias_cask (o : outcome_lists) : outcome_lists :=
  mkLists (install o) (upgrade o) (i_cask (install o)).

(** The dictionary is changed in place; the changed dictionary is
    returned here. *)
Definition print_result (res : Report) : M Report :=
  let res := mkReport (alias_cask (success res)) (error res) (info res) in
  let res := mkReport (success res) (alias_cask (error res)) (info res) in
  print Blank;;
  log_info ([0x1f4ca] ++ lit " Final result:");;
  doc ← dumps res;
  print (Dump doc);;
  mret res.

(** *** Orchestration (lines 200-218)

    Configuration loading and tool discovery (lines 190-209) come first;
    [formulae], [casks] and [brew] are what they produce. *)

Definition new_report : M Report :=
  sif ← new_list; sic ← new_list; suf ← new_list; sc ← new_list;
  eif ← new_list; eic ← new_list; euf ← new_list; ec ← new_list;
  mret (mkReport (mkLists (mkInstall sif sic) (mkUpgrade suf) sc)
                 (mkLists (mkInstall eif eic) (mkUpgrade euf) ec)
                 []).

Definition main (sched_casks sched_caveats : list nat) (brew : str)
    (formulae casks : list str) : M unit :=
  res ← new_report;
  update_and_upgrade brew res;;
  install_formulae brew formulae res;;
  install_casks sched_casks brew casks res;;
  caveats ← collect_caveats_parallel sched_caveats brew formulae casks;
  let res := mkReport (success res) (error res) caveats in
  print_result res;;
  log_success ([0x1f389] ++ lit " Done!").

(** The exit status of the process: zero when [main] returns, one when an
    exception leaves it. *)
Definition exit_status (sched_casks sched_caveats : list nat) (brew : str)
    (formulae casks : list str) (s : state W) : Z * state W :=
  match main sched_casks sched_caveats brew formulae casks s with
  | (Ret _, s') => (0%Z, s')
  | (Raise _, s') => (1%Z, s')
  end.

End Script.

Arguments get_caveat : simpl never.
Arguments is_cask_installed : simpl never.

(** ** A concrete world for examples

    The world lists the installed formulae and casks, the outdated
    formulae and the application bundles on disk.  [brew list] and
    [brew outdated] print one name per line; [brew info --cask] prints
    "Not installed" for a cask that is not installed; [brew info --caveats]
    prints a caveat for "git" and nothing for other packages; every query
    about the package "broken" raises, as a command whose output cannot be
    decoded does; an install of casks ends with status 1 when [casks_fail]
    and adds the casks otherwise. *)
Module Demo.

Record world : Type := mkWorld {
  formulae_installed : list str;
  casks_installed : list str;
  outdated : list str;
  bundles : list str;
  casks_fail : bool
}.

Definition brew : str := lit "/opt/homebrew/bin/brew".

Definition lines (names : list str) : str :=
  concat (fmap (fun n => n ++ [10]) names).

Definition after (p cmd : str) : option str :=
  if startswith p cmd then Some (drop (length p) cmd) else None.

Definition capture (cmd : str) (w : world) : outcome CompletedProcess :=
  if bool_decide (cmd = brew ++ lit " list --formula")
  then Ret (mkCompleted 0 (lines (formulae_installed w)))
  else if bool_decide (cmd = brew ++ lit " list --cask")
  then Ret (mkCompleted 0 (lines (casks_installed w)))
  else if bool_decide (cmd = brew ++ lit " outdated --formula --quiet")
  then Ret (mkCompleted 0 (lines (outdated w)))
  else if bool_decide (cmd = brew ++ lit " info  --caveats git")
  then Ret (mkCompleted 0 (lit "Caveat: ..." ++ [10]))
  else if bool_decide (cmd = brew ++ lit " info  --caveats broken")
  then Raise (AdapterError (lit "UnicodeDecodeError"))
  else if contains (lit " --caveats ") cmd
  then Ret (mkCompleted 0 [])
  else match after (brew ++ lit " info --cask ") cmd with
  | Some name =>
      if bool_decide (name = lit "broken")
      then Raise (AdapterError (lit "UnicodeDecodeError"))
      else if bool_decide (name ∈ casks_installed w)
      then Ret (mkCompleted 0 (name ++ lit ": 1.0"))
      else Ret (mkCompleted 0 (name ++ lit ": 1.0" ++ [10] ++ lit "Not installed"))
  | None => Ret (mkCompleted 0 [])
  end.

Definition live (cmd : str) (w : world) : outcome CompletedProcess * world :=
  match after (brew ++ lit " install --cask ") cmd with
  | Some names =>
      if casks_fail w then (Ret (mkCompleted 1 []), w)
      else (Ret (mkCompleted 0 []),
            mkWorld (formulae_installed w)
                    (casks_installed w ++ [names]) (outdated w) (bundles w)
                    (casks_fail w))
  | None => (Ret (mkCompleted 0 []), w)
  end.

Definition adapter : Adapter world :=
  mkAdapter world capture live
            (fun p w => Ret (bool_decide (p ∈ bundles w)))
            (fun _ => Ret (lit "/Users/me")).

(** Nothing installed, nothing outdated. *)
Definition bare : world := mkWorld [] [] [] [] false.

(** The state at the start of [main]. *)
Definition start (w : world) : state world := mkState w ∅ [] [] [].

(** A report dictionary with its eight lists, and the state that holds
    them empty. *)
Definition report : Report :=
  mkReport (mkLists (mkInstall 0%nat 1%nat) (mkUpgrade 2%nat) 3%nat)
           (mkLists (mkInstall 4%nat 5%nat) (mkUpgrade 6%nat) 7%nat) [].

Definition ready (w : world) : state world :=
  mkState w (list_to_map (fmap (fun l => (l, [])) (seq 0%nat 8%nat))) [] [] [].

End Demo.

(** ** Vocabulary of the properties *)

(** Lines of a text, in the words of the specification: [name] is a whole
    line of [text] when it occurs there from the start of the text or from
    just after a line boundary, up to the end of the text or to just before
    a line boundary. *)
Definition no_linebreak (name : str) : Prop :=
  Forall (fun c => is_linebreak c = false) name.

Definition line_ends (after : str) : Prop :=
  match after with
  | [] => True
  | c :: _ => is_linebreak c = true
  end.

Definition line_begins (before : str) : Prop :=
  before = [] \/ exists b c, before = b ++ [c] /\ is_linebreak c = true.

Definition whole_line (name text : str) : Prop :=
  exists before after,
    text = before ++ name ++ after /\ line_begins before /\ line_ends after.

(** A text of white space only (the empty text included). *)
Definition blank (s : str) : Prop := Forall (fun c => is_space c = true) s.

(** [p] occurs in [s]. *)
Definition substring (p s : str) : Prop :=
  exists before after, s = before ++ p ++ after.

(** The same while [splitlines_from] holds the current line in [cur]. *)
Definition in_lines (name cur s : str) : Prop :=
  (exists after, rev cur ++ s = name ++ after /\ line_ends after)
  \/ (exists before c after,
        s = before ++ [c] ++ name ++ after
        /\ is_linebreak c = true /\ line_ends after).

(** What a probe's outcome means for the missing-cask filter. *)
Definition confirmed (o : outcome bool) : bool :=
  match o with Ret true => true | _ => false end.

Definition raised {B} (o : outcome B) : bool :=
  match o with Raise _ => true | Ret _ => false end.

(** The record [log_warning] hands to [logging] for a failed cask check. *)
Definition failed_check_record (name : str) : level * str :=
  (WARNING,
   Color.YELLOW ++ [0x26a0; 0xfe0f] ++ lit " "
     ++ (lit "Failed to check cask: " ++ name) ++ Color.RESET).

Definition add_log {W} (s : state W) (records : list (level * str)) : state W :=
  mkState (world s) (heap s) (log s ++ records) (issued s) (printed_out s).

(** The names the filter loop appends, and the warnings it logs. *)
Definition missing_of (fs : list (future bool * str)) : list str :=
  fmap snd (filter (fun x => ¬ confirmed (fut_outcome x.1)) fs).

Definition warnings_of (fs : list (future bool * str)) : list (level * str) :=
  fmap (fun x => failed_check_record x.2)
      (filter (fun x => raised (fut_outcome x.1)) fs).

Definition filter_body {W} : future bool * str -> list str -> Step W (list str) :=
  fun '(fut, name) to_install =>
    try_except
      (r ← result fut;
       if negb r then mret (to_install ++ [name]) else mret to_install)
      (log_warning (lit "Failed to check cask: " ++ name);;
       mret (to_install ++ [name])).

(** The futures of a batch of cask checks. *)
Definition cask_futures {W} (adapter : Adapter W) (brew : str) (casks : list str)
    (w : W)
  : list (future bool * str) :=
  fmap (fun name => (mkFuture (is_cask_installed adapter brew name w), name)) casks.

Definition checking_record : level * str :=
  (INFO, [0x2139; 0xfe0f] ++ lit " "
         ++ ([0x1f9ea] ++ lit " Checking for installed casks in parallel...")).

(** The caveat loop: the first exception met in completion order leaves
    the loop; otherwise the entries found are appended in that order. *)
Fixpoint first_raise {B X} (fs : list (future B * X)) : option exn :=
  match fs with
  | [] => None
  | (f, _) :: rest =>
      match fut_outcome f with
      | Raise e => Some e
      | Ret _ => first_raise rest
      end
  end.

Definition entries_of {E X} (fs : list (future (option E) * X)) : list E :=
  omap (fun x => match fut_outcome x.1 with Ret r => r | Raise _ => None end) fs.

Definition caveat_body {W X}
  : future (option (list (str * str))) * X -> list (list (str * str))
    -> Step W (list (list (str * str))) :=
  fun '(fut, _) caveats =>
    r ← result fut;
    match r with
    | Some entry => mret (caveats ++ [entry])
    | None => mret caveats
    end.

(** The items of a caveat batch and their futures. *)
Definition caveat_items (formulae casks : list str) : list (str * bool) :=
  fmap (fun name => (name, false)) formulae ++ fmap (fun name => (name, true)) casks.

Definition caveat_futures {W} (adapter : Adapter W) (brew : str)
    (items : list (str * bool)) (w : W)
  : list (future (option (list (str * str))) * (str * bool)) :=
  fmap (fun x => (mkFuture ((let '(name, is_cask) := x in
                            get_caveat adapter brew name is_cask) w), x)) items.

Definition collecting_record : level * str :=
  (INFO, [0x2139; 0xfe0f] ++ lit " "
         ++ ([0x1f50d] ++ lit " Collecting caveats in parallel...")).

(** The command of a caveat probe, and the entry the probe makes of the
    text the command printed. *)
Definition caveat_command (brew : str) (item : str * bool) : str :=
  brew ++ lit " info " ++ (if item.2 then lit "--cask" else []) ++ lit " --caveats "
       ++ item.1.

Definition caveat_entry (item : str * bool) (text : str) : option (list (str * str)) :=
  match strip text with
  | [] => None
  | caveat => Some [(if item.2 then lit "cask" else lit "formula", item.1);
                    (lit "caveat", caveat)]
  end.

(** A batched call succeeds when the command completes with status 0. *)
Definition call_ok (o : outcome CompletedProcess) : bool :=
  match o with
  | Ret p => (returncode p =? 0)%Z
  | Raise _ => false
  end.

Definition error_record (msg : str) : level * str :=
  (ERROR, Color.RED ++ [0x274c] ++ lit " " ++ msg ++ Color.RESET).

Definition info_record (msg : str) : level * str :=
  (INFO, [0x2139; 0xfe0f] ++ lit " " ++ msg).

(** The state after one batched call [cmd] for [attempted]: the command is
    issued once, and all of [attempted] goes to one list. *)
Definition after_batched_call {W} (adapter : Adapter W) (cmd : str)
    (attempted : list str) (succ err : loc) (emsg : str) (s : state W) : state W :=
  let '(o, w') := shell_live adapter cmd (world s) in
  if call_ok o
  then mkState w' (alter (fun old => old ++ attempted) succ (heap s))
               (log s) (issued s ++ [cmd]) (printed_out s)
  else mkState w' (alter (fun old => old ++ attempted) err (heap s))
               (log s ++ [error_record emsg]) (issued s ++ [cmd]) (printed_out s).

(** The formulae [install_formulae] computes from the listing text. *)
Definition not_listed (listing : str) (names : list str) : list str :=
  filter (fun name => name ∉ splitlines listing) names.

(** What one step leaves behind: no call and no record when nothing is to
    be processed; otherwise the single command [cmd], and all of
    [attempted] appended to the success list when the call succeeded in
    world [w] and to the error list when it failed. *)
Definition one_call_or_none {W} (adapter : Adapter W) (cmd : str)
    (attempted : list str) (succ err : loc) (w : W)
    (issued0 : list str) (heap0 : gmap nat (list str)) (s' : state W) : Prop :=
  match attempted with
  | [] => issued s' = issued0 /\ heap s' = heap0
  | _ :: _ =>
      issued s' = issued0 ++ [cmd]
      /\ heap s' = alter (fun old => old ++ attempted)
                         (if call_ok (shell_live adapter cmd w).1 then succ else err)
                         heap0
  end.

(** The claim as the specification words it: a step issues exactly one
    command. *)
Definition issues_exactly_one_call {W} (step : Step W unit) (s : state W) : Prop :=
  exists cmd, issued (step s).2 = issued s ++ [cmd].

(** Reading a printed document: [doc[k1][k2]...]. *)
Fixpoint assoc (key : str) (members : list (str * json)) : option json :=
  match members with
  | [] => None
  | (k, v) :: rest => if bool_decide (k = key) then Some v else assoc key rest
  end.

Fixpoint json_get (path : list str) (doc : json) : option json :=
  match path with
  | [] => Some doc
  | key :: path' =>
      match doc with
      | JObject members =>
          match assoc key members with
          | Some v => json_get path' v
          | None => None
          end
      | _ => None
      end
  end.

(** Steps that print nothing. *)
Definition keeps_printed {W A} (m : Step W A) : Prop :=
  forall s, printed_out (m s).2 = printed_out s.

(** A world in which only the bundle of "iterm2" is on disk. *)
Definition bundle_only : Demo.world :=
  Demo.mkWorld [] [] [] [lit "/Applications/iterm2.app"] false.

(** A world with "git" and "firefox" installed and "jq" outdated. *)
Definition some_installed : Demo.world :=
  Demo.mkWorld [lit "git"] [lit "firefox"] [lit "jq"] [] false.

(** The same world when every install of casks fails. *)
Definition casks_failing : Demo.world :=
  Demo.mkWorld [lit "git"] [lit "firefox"] [lit "jq"] [] true.

Definition git_caveat (item : list N * bool) : list N :=
  if bool_decide (item = (lit "git", false)) then lit "Caveat: ..." ++ [10] else [].

(** The queries of the run never raise, and [brew update] completes. *)
Definition queries_answer {W} (adapter : Adapter W) (brew : str) : Prop :=
  (forall cmd (w : W), exists r, shell_capture adapter cmd w = Ret r)
  /\ (forall (w : W), exists p, (shell_live adapter (brew ++ lit " update") w).1 = Ret p).

(** ** Vocabulary of the further properties *)










(** An adapter whose queries always answer: the one of [Demo], with an
    empty text and status 1 where that one raises. *)
Module Calm.

Definition capture (cmd : str) (w : Demo.world) : outcome CompletedProcess :=
  match Demo.capture cmd w with
  | Ret r => Ret r
  | Raise _ => Ret (mkCompleted 1 [])
  end.

Definition adapter : Adapter Demo.world :=
  mkAdapter Demo.world capture Demo.live
            (fun p w => Ret (bool_decide (p ∈ Demo.bundles w)))
            (fun _ => Ret (lit "/Users/me")).

End Calm.

(** An adapter whose queries all raise. *)
Module Offline.

Definition adapter : Adapter Demo.world :=
  mkAdapter Demo.world
            (fun _ _ => Raise (AdapterError (lit "OSError")))
            Demo.live
            (fun _ _ => Raise (AdapterError (lit "OSError")))
            (fun _ => Raise (AdapterError (lit "OSError"))).

End Offline.

(** ** Start-up (lines 49-82 and 183-209)

    What runs before the steps: the check of the operating system, the
    loading and validation of [config.json] and the search for the [brew]
    executable. *)

(** The values [json.load] builds.  A dictionary lists its members in the
    order of the file, each key once. *)
#[warnings="-register-all"]
Inductive pyvalue : Type :=
| PNone
| PBool (b : bool)
| PInt (n : Z)
| PFloat (repr : str)
| PStr (s : str)
| PList (items : list pyvalue)
| PDict (members : list (str * pyvalue)).

(** How the start-up ends when it does not go on: [sys.exit(code)], or an
    exception that nothing catches. *)
Inductive stop : Type :=
| SystemExit (code : Z)
| AssertionError (msg : str)
| AttributeError (msg : str)
| KeyError (key : str)
| Uncaught (e : exn).

Inductive ending (A : Type) : Type :=
| Goes (a : A)
| Stops (why : stop).
Arguments Goes {A} a.
Arguments Stops {A} why.

Definition Boot (W : Type) (A : Type) : Type := state W -> ending A * state W.

(** The status the process ends with. *)
Definition status_of (why : stop) : Z :=
  match why with
  | SystemExit code => code
  | _ => 1%Z
  end.

(** What the start-up asks of the machine besides the adapter: [platform],
    [shutil.which], the content of a JSON file ([open] and [json.load], a
    value or an exception), the [PATH] of [os.environ], and
    [str(Path(p).parent)]. *)
Record Host (W : Type) : Type := mkHost {
  platform_system : W -> str;
  platform_machine : W -> str;
  shutil_which : str -> W -> option str;
  json_load : str -> Query W pyvalue;
  environ_PATH : W -> option str;
  set_environ_PATH : str -> W -> W;
  path_parent : str -> str
}.
Arguments platform_system {W} _ _.
Arguments platform_machine {W} _ _.
Arguments shutil_which {W} _ _ _.
Arguments json_load {W} _ _ _.
Arguments environ_PATH {W} _ _.
Arguments set_environ_PATH {W} _ _ _.
Arguments path_parent {W} _ _.

Definition b_ret {W A} (a : A) : Boot W A := fun s => (Goes a, s).
Definition b_bind {W A B} (m : Boot W A) (k : A -> Boot W B) : Boot W B :=
  fun s => match m s with
           | (Goes a, s') => k a s'
           | (Stops why, s') => (Stops why, s')
           end.

#[global] Instance Boot_ret {W} : MRet (Boot W) := @b_ret W.
#[global] Instance Boot_bind {W} : MBind (Boot W) := fun A B k m => b_bind m k.

(** A step of the script, a query and a reading of the machine, at
    start-up: an exception is not caught. *)
Definition step {W A} (m : Step W A) : Boot W A :=
  fun s => match m s with
           | (Ret a, s') => (Goes a, s')
           | (Raise e, s') => (Stops (Uncaught e), s')
           end.

Definition ask {W A} (q : Query W A) : Boot W A := step (query q).

Definition read {W A} (f : W -> A) : Boot W A := fun s => (Goes (f (world s)), s).

Definition stop_with {W A} (why : stop) : Boot W A := fun s => (Stops why, s).

(** [sys.exit(code)] *)
Definition sys_exit {W A} (code : Z) : Boot W A := stop_with (SystemExit code).

(** Truth value of what [shutil.which] returns. *)
Definition found (p : option str) : bool :=
  match p with
  | Some path => truthy path
  | None => false
  end.

(** [members[key]] of a dictionary, if any. *)
Fixpoint member_of (key : str) (members : list (str * pyvalue)) : option pyvalue :=
  match members with
  | [] => None
  | (k, v) :: rest => if bool_decide (k = key) then Some v else member_of key rest
  end.

(** The path the script expects [brew] at on an architecture, if any. *)
Definition default_brew (arch : str) : option str :=
  if bool_decide (arch = lit "arm64") then Some (lit "/opt/homebrew/bin/brew")
  else if bool_decide (arch = lit "x86_64") then Some (lit "/usr/local/bin/brew")
  else None.

(** The value under [key] is a list, or [key] is missing. *)
Definition list_or_missing (key : str) (members : list (str * pyvalue)) : Prop :=
  match member_of key members with
  | None => True
  | Some (PList _) => True
  | Some _ => False
  end.

(** [type(v).__name__] *)
Definition type_name (v : pyvalue) : str :=
  match v with
  | PNone => lit "NoneType"
  | PBool _ => lit "bool"
  | PInt _ => lit "int"
  | PFloat _ => lit "float"
  | PStr _ => lit "str"
  | PList _ => lit "list"
  | PDict _ => lit "dict"
  end.

(** [data.get(key, default)]: only a dictionary has the method. *)
Definition py_get {W} (data : pyvalue) (key : str) (default : pyvalue)
  : Boot W pyvalue :=
  match data with
  | PDict members => mret (from_option id default (member_of key members))
  | _ => stop_with (AttributeError (lit "'" ++ type_name data
                                    ++ lit "' object has no attribute 'get'"))
  end.

Section StartUp.
Context {W : Type} (adapter : Adapter W) (host : Host W).

Abbreviation B := (Boot W).

(** Lines 58-66: the candidate if it is there, else what [shutil.which]
    finds, else the end of the process. *)
Definition brew_or_fallback (brew : option str) : B str :=
  usable ← match brew with
           | Some p => if truthy p then ask (path_exists adapter p) else mret false
           | None => mret false
           end;
  match brew, usable with
  | Some p, true => mret p
  | _, _ =>
      fallback ← read (shutil_which host (lit "brew"));
      if found fallback then mret (default [] fallback)
      else step (log_error (lit "Homebrew not found in expected locations."));;
           sys_exit 1
  end.

(** Lines 49-66. *)
Definition brew_path : B str :=
  arch ← read (platform_machine host);
  brew ← (if bool_decide (arch = lit "arm64")
          then mret (Some (lit "/opt/homebrew/bin/brew"))
          else if bool_decide (arch = lit "x86_64")
          then mret (Some (lit "/usr/local/bin/brew"))
          else read (shutil_which host (lit "brew")));
  brew_or_fallback brew.

(** Lines 68-72.  The script calls [subprocess.run] itself here, with
    [shell=True], [check=True] and the streams of the process: what
    [run_live] does with [check=True]. *)
Definition install_homebrew : B str :=
  step (log_info (lit "Installing Homebrew... " ++ [0x1f6e0; 0xfe0f]));;
  let script_url :=
    lit "https://raw.githubusercontent.com/Homebrew/install/HEAD/install.sh" in
  step (run_live adapter
          (lit "/bin/bash -c " ++ [34] ++ lit "$(curl -fsSL " ++ script_url
           ++ lit ")" ++ [34]) true);;
  brew_path.

(** Lines 74-79. *)
Definition parse_config (config_path : str) : B pyvalue :=
  present ← ask (path_exists adapter config_path);
  if negb present then
    step (log_error (lit "Missing config file: " ++ config_path));;
    sys_exit 1
  else ask (json_load host config_path).

(** Lines 81-82. *)
Definition assert_lists (data : pyvalue) (key : str) : B unit :=
  v ← py_get data key (PList []);
  match v with
  | PList _ => mret tt
  | _ => stop_with (AssertionError (key ++ lit " must be a list in config.json"))
  end.

(** Lines 183-186. *)
Definition require_macos : B unit :=
  system ← read (platform_system host);
  if bool_decide (system <> lit "Darwin") then
    step (log_error (lit "Error: This script can only be run on macOS. " ++ [0x1f34f]));;
    sys_exit 1
  else mret tt.

(** [brew = brew_path()] and [if not brew: brew = install_homebrew()]
    (lines 206-208). *)
Definition locate_brew : B str :=
  brew ← brew_path;
  if negb (truthy brew) then install_homebrew else mret brew.

(** [os.environ["PATH"] = f"{str(Path(brew).parent)}:{os.environ['PATH']}"]
    (line 209). *)
Definition prepend_to_PATH (brew : str) : B unit :=
  fun s => match environ_PATH host (world s) with
           | Some old =>
               (Goes tt,
                mkState (set_environ_PATH host
                           (path_parent host brew ++ lit ":" ++ old) (world s))
                        (heap s) (log s) (issued s) (printed_out s))
           | None => (Stops (KeyError (lit "PATH")), s)
           end.

(** [main] up to line 209: what it hands to the steps. *)
Definition startup : B (pyvalue * pyvalue * Report * str) :=
  require_macos;;
  step (log_info ([0x2728] ++ lit " Brew Sync Starting... " ++ [0x1f680]));;
  config ← parse_config (lit "config.json");
  assert_lists config (lit "formula");;
  assert_lists config (lit "cask");;
  formulae ← py_get config (lit "formula") (PList []);
  casks ← py_get config (lit "cask") (PList []);
  res ← step new_report;
  brew ← locate_brew;
  prepend_to_PATH brew;;
  mret (formulae, casks, res, brew).

End StartUp.

(** *** Vocabulary of the start-up properties *)

(** A part of the start-up that issues no command and prints nothing; when
    it goes on, [Q] holds of the machine it started from, its value and the
    state it leaves; when it stops, the machine is as it was and the status
    of the process is 1. *)
Definition ends_well {W A} (Q : W -> A -> state W -> Prop) (m : Boot W A) : Prop :=
  forall s,
    issued (m s).2 = issued s
    /\ printed_out (m s).2 = printed_out s
    /\ match (m s).1 with
       | Goes a => Q (world s) a (m s).2
       | Stops why => world (m s).2 = world s /\ status_of why = 1%Z
       end.

(** The machine is as it was, and [P] holds of the value. *)
Definition unchanged {W A} (P : A -> Prop) : W -> A -> state W -> Prop :=
  fun w a s' => world s' = w /\ P a.

(** The records of the start-up. *)
Definition macos_only_record : level * str :=
  error_record (lit "Error: This script can only be run on macOS. " ++ [0x1f34f]).

Definition starting_record : level * str :=
  info_record ([0x2728] ++ lit " Brew Sync Starting... " ++ [0x1f680]).

Definition missing_config_record : level * str :=
  error_record (lit "Missing config file: config.json").

Definition not_found_record : level * str :=
  error_record (lit "Homebrew not found in expected locations.").

(** How [brew_path] ends once the expected place is given up. *)
Definition fallback_ending {W} (host : Host W) (s : state W) : ending str * state W :=
  match shutil_which host (lit "brew") (world s) with
  | Some q => if truthy q then (Goes q, s)
              else (Stops (SystemExit 1), add_log s [not_found_record])
  | None => (Stops (SystemExit 1), add_log s [not_found_record])
  end.

(** The exception of [data.get] when [data] is no dictionary. *)
Definition no_get (data : pyvalue) : stop :=
  AttributeError (lit "'" ++ type_name data ++ lit "' object has no attribute 'get'").

(** The value is a dictionary. *)
Definition is_dict (v : pyvalue) : bool :=
  match v with PDict _ => true | _ => false end.

(** The message of the failed assertion of [assert_lists]. *)
Definition must_be_a_list (key : str) : stop :=
  AssertionError (key ++ lit " must be a list in config.json").

(** The value is a list. *)
Definition is_list (v : pyvalue) : bool :=
  match v with PList _ => true | _ => false end.

(** [data.get(key, [])] of a dictionary. *)
Definition get_list (key : str) (members : list (str * pyvalue)) : pyvalue :=
  from_option id (PList []) (member_of key members).

(** The state after the first value of [PATH] is replaced. *)
Definition with_PATH {W} (host : Host W) (brew old : str) (s : state W) : state W :=
  mkState (set_environ_PATH host (path_parent host brew ++ lit ":" ++ old) (world s))
          (heap s) (log s) (issued s) (printed_out s).

(** A machine for the start-up: what [platform] and [shutil.which] answer,
    the files that exist, the content of the configuration file, [PATH],
    and the state of the package manager. *)
Module Mac.

Record world : Type := mkWorld {
  system : str;
  machine : str;
  on_PATH : option str;
  files : list str;
  config : outcome pyvalue;
  PATH : option str;
  packages : Demo.world
}.

Definition live (cmd : str) (w : world) : outcome CompletedProcess * world :=
  let '(r, p) := Demo.live cmd (packages w) in
  (r, mkWorld (system w) (machine w) (on_PATH w) (files w) (config w) (PATH w) p).

Definition adapter : Adapter world :=
  mkAdapter world
            (fun cmd w => Demo.capture cmd (packages w))
            live
            (fun p w => Ret (bool_decide (p ∈ files w)))
            (fun _ => Ret (lit "/Users/me")).

(** The directory of a path with at least two components. *)
Fixpoint after_slash (p : str) : str :=
  match p with
  | [] => []
  | c :: rest => if bool_decide (c = 47) then rest else after_slash rest
  end.

Definition parent (p : str) : str := reverse (after_slash (reverse p)).

Definition host : Host world :=
  mkHost world system machine (fun _ w => on_PATH w) (fun _ w => config w) PATH
         (fun v w => mkWorld (system w) (machine w) (on_PATH w) (files w)
                             (config w) (Some v) (packages w))
         parent.

Definition git_and_firefox : pyvalue :=
  PDict [ (lit "formula", PList [PStr (lit "git")]);
          (lit "cask", PList [PStr (lit "firefox")]) ].

(** An Apple-silicon Mac with Homebrew at its place and a configuration. *)
Definition arm : world :=
  mkWorld (lit "Darwin") (lit "arm64") None
          [lit "config.json"; lit "/opt/homebrew/bin/brew"]
          (Ret git_and_firefox) (Some (lit "/usr/bin:/bin")) Demo.bare.

(** The same Mac with Homebrew only at the place of an Intel Mac and on
    [PATH]; an Intel Mac without Homebrew; a Linux machine. *)
Definition arm_with_intel_brew : world :=
  mkWorld (lit "Darwin") (lit "arm64") (Some (lit "/usr/local/bin/brew"))
          [lit "config.json"; lit "/usr/local/bin/brew"]
          (Ret git_and_firefox) (Some (lit "/usr/bin:/bin")) Demo.bare.

Definition intel_without_brew : world :=
  mkWorld (lit "Darwin") (lit "x86_64") None [lit "config.json"]
          (Ret git_and_firefox) (Some (lit "/usr/bin:/bin")) Demo.bare.

Definition linux : world :=
  mkWorld (lit "Linux") (lit "x86_64") None [lit "config.json"]
          (Ret git_and_firefox) (Some (lit "/usr/bin:/bin")) Demo.bare.

(** The Mac of [arm] with another content of the configuration file, or
    without the file. *)
Definition configured (files : list str) (config : outcome pyvalue) : world :=
  mkWorld (lit "Darwin") (lit "arm64") None files config
          (Some (lit "/usr/bin:/bin")) Demo.bare.

Definition formula_only : list (str * pyvalue) :=
  [ (lit "formula", PList [PStr (lit "git")]) ].

Definition cask_is_a_string : list (str * pyvalue) :=
  [ (lit "formula", PList [PStr (lit "git")]);
    (lit "cask", PStr (lit "firefox")) ].

Definition start (w : world) : state world := mkState w ∅ [] [] [].

End Mac.

(** An adapter for a [brew] that cannot work: every command ends with
    status 1 and prints nothing. *)
Module Broken.

Definition adapter : Adapter Demo.world :=
  mkAdapter Demo.world
            (fun _ _ => Ret (mkCompleted 1 []))
            (fun _ w => (Ret (mkCompleted 1 []), w))
            (fun _ _ => Ret false)
            (fun _ => Ret (lit "/Users/me")).

End Broken.

(** ** Python strings at work *)

Example splitlines_ex1 :
  splitlines (lit "git" ++ [10] ++ lit "wget" ++ [13; 10; 10] ++ lit "jq")
  = [lit "git"; lit "wget"; []; lit "jq"].
Proof. reflexivity. Qed.

Example splitlines_ex2 : splitlines (lit "git" ++ [10]) = [lit "git"].
Proof. reflexivity. Qed.

Example strip_ex : strip ([32; 10] ++ lit "a b" ++ [9; 10]) = lit "a b".
Proof. reflexivity. Qed.

Example contains_ex : contains (lit "Not installed") (lit "iterm2: Not installed") = true.
Proof. reflexivity. Qed.

(** ** White space *)

Lemma lstrip_nil s : lstrip s = [] <-> blank s.
Proof.
  unfold blank. induction s as [|c s IH]; cbn.
  - split; [constructor|done].
  - destruct (is_space c) eqn:Hc.
    + rewrite IH. split; [by constructor|by inversion 1].
    + split; [done|]. inversion 1; congruence.
Qed.

Lemma lstrip_head s c r : lstrip s = c :: r -> is_space c = false.
Proof.
  induction s as [|d s IH]; cbn; [done|].
  destruct (is_space d) eqn:Hd; [done|]. by intros [= <- _].
Qed.

Lemma strip_nil s : strip s = [] <-> blank s.
Proof.
  unfold strip, rstrip. rewrite <- lstrip_nil. split.
  - intros Hs. apply (f_equal (@rev _)) in Hs. rewrite rev_involutive in Hs.
    cbn in Hs. apply lstrip_nil in Hs. unfold blank in Hs.
    destruct (lstrip s) as [|c r] eqn:Hl; [done|].
    pose proof (lstrip_head s c r Hl) as Hc.
    rewrite Forall_forall in Hs.
    assert (is_space c = true); [|congruence].
    apply Hs. rewrite list_elem_of_In. apply in_rev. rewrite rev_involutive.
    by left.
  - by intros ->.
Qed.

(** ** Occurrences in a text *)

Lemma startswith_prefix p s : startswith p s = true <-> exists after, s = p ++ after.
Proof.
  revert s. induction p as [|a p IH]; intros s; cbn.
  - split; [by exists s|done].
  - destruct s as [|b s].
    + split; [done|by intros [after ?]].
    + rewrite andb_true_iff, N.eqb_eq, IH. split.
      * intros [-> [after ->]]. by exists after.
      * intros [after [= -> ->]]. split; [done|by exists after].
Qed.

Lemma contains_unfold p s :
  contains p s
  = startswith p s || match s with [] => false | _ :: s' => contains p s' end.
Proof. by destruct s. Qed.

Lemma contains_substring p s : contains p s = true <-> substring p s.
Proof.
  unfold substring. induction s as [|c s IH].
  - rewrite contains_unfold, orb_false_r, startswith_prefix. split.
    + intros [after ->]. by exists [], after.
    + intros (before & after & Heq). destruct before; [by exists after|done].
  - rewrite contains_unfold, orb_true_iff, startswith_prefix, IH. split.
    + intros [[after ->]|(before & after & ->)].
      * by exists [], after.
      * by exists (c :: before), after.
    + intros (before & after & Heq). destruct before as [|b before]; cbn in Heq.
      * left. by exists after.
      * right. injection Heq as -> ->. by exists before, after.
Qed.

(** ** Lines of a text

    For a name that is not empty and holds no line boundary, being an element
    of [splitlines text] is being a whole line of [text]. *)

Lemma line_prefix_unique (l1 l2 r1 r2 : str) c :
  no_linebreak l1 -> no_linebreak l2 -> is_linebreak c = true -> line_ends r2 ->
  l1 ++ c :: r1 = l2 ++ r2 -> l1 = l2 /\ r2 = c :: r1.
Proof.
  intros H1. revert l2. induction H1 as [|x l1 Hx H1 IH]; intros l2 H2 Hc Hr Heq.
  - destruct H2 as [|y l2 Hy H2]; cbn in *; [done|].
    injection Heq as -> _. congruence.
  - destruct H2 as [|y l2 Hy H2]; cbn in *.
    + subst r2. cbn in Hr. congruence.
    + injection Heq as -> Heq. destruct (IH l2 H2 Hc Hr Heq) as [-> ->]. done.
Qed.

Lemma elem_of_rev {A} (x : A) (l : list A) : x ∈ rev l <-> x ∈ l.
Proof. rewrite !list_elem_of_In. symmetry. apply in_rev. Qed.

Lemma no_linebreak_rev l : no_linebreak l -> no_linebreak (rev l).
Proof.
  unfold no_linebreak. rewrite !Forall_forall. intros H x Hx.
  apply H. by apply elem_of_rev.
Qed.

Lemma in_lines_nil name cur :
  name <> [] -> no_linebreak cur -> no_linebreak name ->
  in_lines name cur [] <-> cur <> [] /\ name = rev cur.
Proof.
  intros Hne Hcur Hname. unfold in_lines. split.
  - intros [(after & Heq & Hend)|(before & c & after & Heq & _)].
    + rewrite app_nil_r in Heq. destruct after as [|c after].
      * rewrite app_nil_r in Heq. subst name. split; [|done].
        intros ->. done.
      * cbn in Hend. exfalso.
        assert (c ∈ rev cur) as Hin by (rewrite Heq; set_solver).
        rewrite elem_of_rev in Hin.
        unfold no_linebreak in Hcur. rewrite Forall_forall in Hcur.
        specialize (Hcur c Hin). congruence.
    + by destruct before.
  - intros [_ ->]. left. exists []. by rewrite !app_nil_r.
Qed.

Lemma in_lines_char name cur c s :
  is_linebreak c = false ->
  in_lines name cur (c :: s) <-> in_lines name (c :: cur) s.
Proof.
  intros Hc. unfold in_lines. cbn [rev]. rewrite <- app_assoc. cbn.
  split; (intros [H|(before & c0 & after & Heq & Hc0 & Hend)]; [by left|right]).
  - destruct before as [|x before]; cbn in Heq.
    + injection Heq as -> _. congruence.
    + injection Heq as -> Heq. by exists before, c0, after.
  - exists (c :: before), c0, after. by rewrite Heq.
Qed.

Lemma in_lines_break name cur c s :
  no_linebreak cur -> no_linebreak name -> is_linebreak c = true ->
  in_lines name cur (c :: s)
  <-> name = rev cur
      \/ (exists before c0 after,
            c :: s = before ++ [c0] ++ name ++ after
            /\ is_linebreak c0 = true /\ line_ends after).
Proof.
  intros Hcur Hname Hc. unfold in_lines. split; (intros [H|H]; [left|by right]).
  - destruct H as (after & Heq & Hend).
    pose proof (no_linebreak_rev cur Hcur) as Hrev.
    by destruct (line_prefix_unique _ _ _ _ _ Hrev Hname Hc Hend Heq) as [-> _].
  - exists (c :: s). by rewrite H.
Qed.

Lemma splitlines_from_spec name :
  name <> [] -> no_linebreak name ->
  forall n s cur, length s = n -> no_linebreak cur ->
    name ∈ splitlines_from cur s <-> in_lines name cur s.
Proof.
  intros Hne Hname n. induction n as [n IH] using lt_wf_ind.
  intros s cur Hlen Hcur. destruct s as [|c s].
  - rewrite in_lines_nil by done. cbn. destruct cur as [|x cur].
    + split; [by intros ?%not_elem_of_nil|by intros [? _]].
    + rewrite list_elem_of_singleton. split; [done|by intros [_ ->]].
  - cbn [splitlines_from]. destruct (is_linebreak c) eqn:Hc.
    + rewrite in_lines_break by done. rewrite elem_of_cons.
      apply or_iff_compat_l.
      destruct s as [|d s].
      { cbn. split; [by intros ?%not_elem_of_nil|].
        intros (before & c0 & after & Heq & _).
        apply (f_equal length) in Heq. rewrite !length_app in Heq. cbn in Heq.
        destruct name; [done|]. cbn in Heq. lia. }
      destruct ((c =? 13) && (d =? 10)) eqn:Hcrlf.
      * apply andb_true_iff in Hcrlf as [->%N.eqb_eq ->%N.eqb_eq].
        rewrite (IH (length s)) by (cbn in Hlen; first [lia | done | constructor]).
        unfold in_lines. cbn. split.
        -- intros [(after & Heq & Hend)|(before & c0 & after & Heq & Hc0 & Hend)].
           ++ exists [13], 10, after. by rewrite Heq.
           ++ exists (13 :: 10 :: before), c0, after. by rewrite Heq.
        -- intros (before & c0 & after & Heq & Hc0 & Hend).
           destruct before as [|x [|y before]]; cbn in Heq.
           ++ injection Heq as <- Heq. destruct name as [|z name]; [done|].
              injection Heq as <- _. inversion Hname; subst. done.
           ++ injection Heq as <- <- Heq. left. by exists after.
           ++ injection Heq as <- <- Heq. right. by exists before, c0, after.
      * rewrite (IH (length (d :: s))) by (cbn in *; first [lia | done | constructor]).
        unfold in_lines. split.
        -- intros [(after & Heq & Hend)|(before & c0 & after & Heq & Hc0 & Hend)].
           ++ exists [], c, after. cbn in *. by rewrite Heq.
           ++ exists (c :: before), c0, after. by rewrite Heq.
        -- intros (before & c0 & after & Heq & Hc0 & Hend).
           destruct before as [|x before]; cbn in Heq.
           ++ injection Heq as <- Heq. left. by exists after.
           ++ injection Heq as <- Heq. right. by exists before, c0, after.
    + rewrite in_lines_char by done.
      apply (IH (length s)); [cbn in Hlen; lia|done|by constructor].
Qed.

Lemma splitlines_whole_line name text :
  name <> [] -> no_linebreak name ->
  name ∈ splitlines text <-> whole_line name text.
Proof.
  intros Hne Hname. unfold splitlines.
  rewrite (splitlines_from_spec name Hne Hname (length text) text [])
    by first [done|constructor].
  unfold in_lines, whole_line, line_begins. cbn. split.
  - intros [(after & Heq & Hend)|(before & c & after & Heq & Hc & Hend)].
    + exists [], after. by eauto.
    + exists (before ++ [c]), after. rewrite <- app_assoc. by eauto 10.
  - intros (before & after & Heq & [->|(b & c & -> & Hc)] & Hend).
    + left. by exists after.
    + right. exists b, c, after. by rewrite <- app_assoc in Heq.
Qed.

(** ** Properties of the batch runners *)

Ltac run_step :=
  unfold mbind, mret, M_bind, M_ret, Q_bind, Q_ret, m_bind, m_ret, q_bind,
    q_ret, raise, query, try_except, result in *; cbn in *.

Lemma add_log_nil {W} (s : state W) : add_log s [] = s.
Proof. destruct s. unfold add_log. cbn. by rewrite app_nil_r. Qed.

Lemma add_log_app {W} (s : state W) l1 l2 :
  add_log (add_log s l1) l2 = add_log s (l1 ++ l2).
Proof. unfold add_log. cbn. by rewrite app_assoc. Qed.

Lemma as_completed_seq {X} (pre fs : list X) :
  omap (fun i => (pre ++ fs) !! i) (seq (length pre) (length fs)) = fs.
Proof.
  revert pre. induction fs as [|x fs IH]; intros pre; [done|].
  cbn. rewrite list_lookup_middle by done. f_equal.
  specialize (IH (pre ++ [x])).
  rewrite <- app_assoc, length_app in IH. cbn in IH.
  by rewrite Nat.add_1_r in IH.
Qed.

Lemma as_completed_perm {X} sched (fs : list X) :
  completion_order (length fs) sched -> as_completed sched fs ≡ₚ fs.
Proof.
  unfold completion_order, as_completed. intros ->.
  pose proof (as_completed_seq [] fs) as Hseq. cbn in Hseq. by rewrite Hseq.
Qed.

Section Batch.
Context {W : Type} (adapter : Adapter W).

Lemma submit_each_eq {A B} ex (fn : A -> Query W B) items (s : state W) :
  submit_each ex fn items s
  = (Ret (fmap (fun x => (mkFuture (fn x (world s)), x)) items), s).
Proof.
  induction items as [|x items IH]; [done|].
  cbn. run_step. by rewrite IH.
Qed.

Lemma missing_of_cons f name fs :
  missing_of ((f, name) :: fs)
  = (if confirmed (fut_outcome f) then [] else [name]) ++ missing_of fs.
Proof.
  unfold missing_of. rewrite filter_cons. cbn.
  destruct (confirmed (fut_outcome f)); by case_decide.
Qed.

Lemma warnings_of_cons f name fs :
  warnings_of ((f, name) :: fs)
  = (if raised (fut_outcome f) then [failed_check_record name] else [])
    ++ warnings_of fs.
Proof.
  unfold warnings_of. rewrite filter_cons. cbn.
  destruct (raised (fut_outcome f)); by case_decide.
Qed.

Lemma filter_loop fs acc (s : state W) :
  for_loop fs filter_body acc s
  = (Ret (acc ++ missing_of fs), add_log s (warnings_of fs)).
Proof.
  revert acc s. induction fs as [|[[o] name] fs IH]; intros acc s.
  - cbn. unfold missing_of, warnings_of. cbn.
    by rewrite app_nil_r, add_log_nil.
  - rewrite missing_of_cons, warnings_of_cons.
    cbn. run_step. destruct o as [[|]|e]; cbn; rewrite IH; try done.
    + by rewrite <- app_assoc.
    + rewrite <- app_assoc. f_equal.
      apply (add_log_app s [failed_check_record name]).
Qed.

(** A batch of at least one cask: the filter returns, whatever the probes
    did. *)
Lemma filter_missing_nonempty sched brew casks (s : state W) :
  casks <> [] ->
  filter_missing_casks_parallel adapter sched brew casks s
  = (Ret (missing_of (as_completed sched (cask_futures adapter brew casks (world s)))),
     add_log s (checking_record ::
                warnings_of (as_completed sched (cask_futures adapter brew casks (world s))))).
Proof.
  intros Hne. unfold filter_missing_casks_parallel. run_step.
  unfold ThreadPoolExecutor.
  destruct (Z.leb_spec (Z.min 8 (Z.of_nat (length casks))) 0) as [Hle|Hgt].
  { destruct casks; [done|]. cbn [length] in Hle. lia. }
  run_step. rewrite submit_each_eq. cbn.
  fold (cask_futures adapter brew casks (world s)).
  change (for_loop ?fs _ ?acc ?st) with (for_loop fs filter_body acc st).
  rewrite filter_loop. cbn. f_equal.
  apply (add_log_app s [checking_record]).
Qed.

(** An empty batch: the pool is asked for zero workers. *)
Lemma filter_missing_empty sched brew (s : state W) :
  filter_missing_casks_parallel adapter sched brew [] s
  = (Raise (ValueError (lit "max_workers must be greater than 0")),
     add_log s [checking_record]).
Proof. reflexivity. Qed.

Lemma caveat_loop {X} (fs : list (future (option (list (str * str))) * X))
    acc (s : state W) :
  for_loop fs caveat_body acc s
  = (match first_raise fs with
     | Some e => Raise e
     | None => Ret (acc ++ entries_of fs)
     end, s).
Proof.
  revert acc. induction fs as [|[[o] x] fs IH]; intros acc.
  - cbn. by rewrite app_nil_r.
  - cbn. run_step. destruct o as [[entry|]|e]; cbn; [| |done].
    + rewrite IH. destruct (first_raise fs); [done|].
      by rewrite <- app_assoc.
    + by rewrite IH.
Qed.

Lemma first_raise_None {B X} (fs : list (future B * X)) :
  first_raise fs = None <-> Forall (fun x => raised (fut_outcome x.1) = false) fs.
Proof.
  induction fs as [|[[o] x] fs IH]; cbn.
  - split; [constructor|done].
  - destruct o as [b|e]; cbn.
    + rewrite IH. split; [by constructor|by inversion 1].
    + split; [done|]. by inversion 1.
Qed.

Lemma collect_caveats_nonempty sched brew formulae casks (s : state W) :
  caveat_items formulae casks <> [] ->
  collect_caveats_parallel adapter sched brew formulae casks s
  = (let fs := as_completed sched
                 (caveat_futures adapter brew (caveat_items formulae casks) (world s)) in
     match first_raise fs with
     | Some e => Raise e
     | None => Ret (entries_of fs)
     end, add_log s [collecting_record]).
Proof.
  intros Hne. unfold collect_caveats_parallel. run_step.
  fold (caveat_items formulae casks).
  unfold ThreadPoolExecutor.
  destruct (Z.leb_spec (Z.min 8 (Z.of_nat (length (caveat_items formulae casks)))) 0)
    as [Hle|Hgt].
  { destruct (caveat_items formulae casks); [done|]. cbn [length] in Hle. lia. }
  run_step. rewrite submit_each_eq. cbn.
  fold (caveat_futures adapter brew (caveat_items formulae casks) (world s)).
  change (for_loop ?fs _ ?acc ?st) with (for_loop fs caveat_body acc st).
  by rewrite caveat_loop.
Qed.

Lemma collect_caveats_empty sched brew (s : state W) :
  collect_caveats_parallel adapter sched brew [] [] s
  = (Raise (ValueError (lit "max_workers must be greater than 0")),
     add_log s [collecting_record]).
Proof. reflexivity. Qed.

End Batch.

(** ** Claims about the batch runners *)

Section BatchClaims.
Context {W : Type} (adapter : Adapter W).

Lemma missing_of_futures brew casks (w : W) :
  missing_of (cask_futures adapter brew casks w)
  = filter (fun name => ¬ confirmed (is_cask_installed adapter brew name w)) casks.
Proof.
  unfold missing_of, cask_futures.
  induction casks as [|name casks IH]; [done|].
  rewrite fmap_cons, !filter_cons. cbn in *.
  case_decide; cbn; by rewrite <- IH.
Qed.

Lemma missing_of_completed sched brew casks (w : W) :
  completion_order (length casks) sched ->
  missing_of (as_completed sched (cask_futures adapter brew casks w))
  ≡ₚ filter (fun name => ¬ confirmed (is_cask_installed adapter brew name w)) casks.
Proof.
  intros Hs. rewrite <- missing_of_futures. unfold missing_of.
  rewrite as_completed_perm; [done|].
  unfold cask_futures. by rewrite length_fmap.
Qed.

(** C1 (the code departs from the claim): on an empty batch each of the two
    batch runners asks [ThreadPoolExecutor] for [min(8, 0) = 0] workers, so
    the pool is requested and the runner raises [ValueError] instead of
    returning an empty result. *)
Theorem empty_batch_raises_ValueError sched brew (s : state W) :
  filter_missing_casks_parallel adapter sched brew [] s
  = (Raise (ValueError (lit "max_workers must be greater than 0")),
     add_log s [checking_record])
  /\ collect_caveats_parallel adapter sched brew [] [] s
     = (Raise (ValueError (lit "max_workers must be greater than 0")),
        add_log s [collecting_record]).
Proof.
  split.
  - apply filter_missing_empty.
  - apply collect_caveats_empty.
Qed.

(** C4: in a batch of the missing-cask filter, a cask whose installed-check
    raises is placed in the returned to-install list, as many times as it
    was submitted, and a warning record naming it is logged; the filter
    itself returns normally. *)
Theorem failed_check_is_attempted_with_warning sched brew casks (s : state W) name e :
  completion_order (length casks) sched ->
  name ∈ casks ->
  is_cask_installed adapter brew name (world s) = Raise e ->
  exists to_install s',
    filter_missing_casks_parallel adapter sched brew casks s = (Ret to_install, s')
    /\ name ∈ to_install
    /\ length (filter (fun c => c = name) to_install)
       = length (filter (fun c => c = name) casks)
    /\ failed_check_record name ∈ log s'.
Proof.
  intros Hs Hin Hraise.
  assert (casks <> []) as Hne by (intros ->; by apply not_elem_of_nil in Hin).
  rewrite (filter_missing_nonempty adapter sched brew casks s Hne).
  eexists _, _. split; [reflexivity|].
  assert ((mkFuture (is_cask_installed adapter brew name (world s)), name)
          ∈ as_completed sched (cask_futures adapter brew casks (world s))) as Hfut.
  { rewrite as_completed_perm.
    - unfold cask_futures. apply list_elem_of_fmap. by exists name.
    - unfold cask_futures. by rewrite length_fmap. }
  split; [|split].
  - rewrite missing_of_completed by done.
    apply list_elem_of_filter. split; [|done].
    change (¬ confirmed (is_cask_installed adapter brew name (world s))).
    rewrite Hraise. cbn. tauto.
  - rewrite missing_of_completed by done.
    rewrite list_filter_filter. f_equal. apply list_filter_iff.
    intros c. split; [tauto|]. intros ->. split; [done|].
    rewrite Hraise. cbn. tauto.
  - cbn. apply elem_of_app. right. apply elem_of_cons. right.
    unfold warnings_of. apply list_elem_of_fmap.
    eexists. split; [|apply list_elem_of_filter; split; [|exact Hfut]].
    + done.
    + change (Is_true (raised (is_cask_installed adapter brew name (world s)))).
      by rewrite Hraise.
Qed.

(** C5 (the code departs from the claim at N = 0): a batch of at least one
    cask is accounted for exactly once per submitted cask, whatever the
    probes did: the to-install list is a rearrangement of the casks whose
    check did not return true, and together with the casks found installed
    it is a rearrangement of the batch.  A batch of no cask produces no
    result: the filter raises. *)
Theorem filter_accounts_for_each_cask sched brew casks (s : state W) :
  completion_order (length casks) sched ->
  let probe name := is_cask_installed adapter brew name (world s) in
  match casks with
  | [] =>
      exists e s',
        filter_missing_casks_parallel adapter sched brew casks s = (Raise e, s')
  | _ :: _ =>
      exists to_install s',
        filter_missing_casks_parallel adapter sched brew casks s = (Ret to_install, s')
        /\ to_install ≡ₚ filter (fun name => ¬ confirmed (probe name)) casks
        /\ to_install ++ filter (fun name => confirmed (probe name)) casks ≡ₚ casks
  end.
Proof.
  intros Hs probe. destruct casks as [|c casks].
  - eexists _, _. reflexivity.
  - rewrite (filter_missing_nonempty adapter sched brew (c :: casks) s) by done.
    eexists _, _. split; [reflexivity|].
    pose proof (missing_of_completed sched brew (c :: casks) (world s) Hs) as Hm.
    split; [exact Hm|].
    rewrite Hm. rewrite (comm (++)).
    apply (filter_app_complement (fun name => confirmed (probe name))).
Qed.

Lemma get_caveat_returns brew name is_cask (w : W) rc text :
  shell_capture adapter (caveat_command brew (name, is_cask)) w
    = Ret (mkCompleted rc text) ->
  get_caveat adapter brew name is_cask w = Ret (caveat_entry (name, is_cask) text).
Proof.
  intros Hc. unfold get_caveat, run_capture. run_step.
  unfold caveat_command in Hc. cbn in Hc. rewrite Hc. cbn.
  unfold caveat_entry. cbn. by destruct (strip text).
Qed.

Lemma get_caveat_raises brew name is_cask (w : W) e :
  shell_capture adapter (caveat_command brew (name, is_cask)) w = Raise e ->
  get_caveat adapter brew name is_cask w = Raise e.
Proof.
  intros Hc. unfold get_caveat, run_capture. run_step.
  unfold caveat_command in Hc. cbn in Hc. by rewrite Hc.
Qed.

Lemma length_caveat_futures brew items (w : W) :
  length (caveat_futures adapter brew items w) = length items.
Proof. unfold caveat_futures. by rewrite length_fmap. Qed.

(** C2 (the code departs from the claim for the caveat collector): when the
    probe of one item of a caveat batch raises, the exception leaves
    [collect_caveats_parallel]: the collector returns no outcome of any
    sibling and logs nothing about the failure.  (The missing-cask filter
    does isolate such a failure.) *)
Theorem caveat_probe_failure_escapes sched brew formulae casks (s : state W)
    name is_cask e :
  completion_order (length (caveat_items formulae casks)) sched ->
  (name, is_cask) ∈ caveat_items formulae casks ->
  get_caveat adapter brew name is_cask (world s) = Raise e ->
  exists e',
    collect_caveats_parallel adapter sched brew formulae casks s
    = (Raise e', add_log s [collecting_record]).
Proof.
  intros Hs Hin Hraise.
  assert (caveat_items formulae casks <> []) as Hne
    by (intros Hnil; rewrite Hnil in Hin; by apply not_elem_of_nil in Hin).
  rewrite (collect_caveats_nonempty adapter sched brew formulae casks s Hne).
  cbn zeta.
  destruct (first_raise _) as [e'|] eqn:Hfirst; [by exists e'|].
  exfalso. apply first_raise_None in Hfirst.
  rewrite Forall_forall in Hfirst.
  specialize (Hfirst (mkFuture (get_caveat adapter brew name is_cask (world s)),
                      (name, is_cask))).
  cbn in Hfirst. rewrite Hraise in Hfirst.
  assert (true = false) as Habs; [|done].
  apply Hfirst. rewrite as_completed_perm by (by rewrite length_caveat_futures).
  unfold caveat_futures. apply list_elem_of_fmap. exists (name, is_cask).
  split; [|done]. cbn. by rewrite Hraise.
Qed.

Lemma entries_of_futures brew items (w : W) (text : str * bool -> str) :
  (forall item, item ∈ items -> exists rc,
      shell_capture adapter (caveat_command brew item) w
      = Ret (mkCompleted rc (text item))) ->
  first_raise (caveat_futures adapter brew items w) = None
  /\ entries_of (caveat_futures adapter brew items w)
     = omap (fun item => caveat_entry item (text item)) items.
Proof.
  induction items as [|[name is_cask] items IH]; intros Hret; [done|].
  destruct (Hret (name, is_cask)) as [rc Hc]; [by left|].
  destruct IH as [IH1 IH2]; [intros item Hitem; apply Hret; by right|].
  unfold caveat_futures, entries_of in *. cbn.
  rewrite (get_caveat_returns brew name is_cask w rc _ Hc). cbn.
  split; [done|]. by rewrite IH2.
Qed.

Lemma collect_caveats_returns sched brew formulae casks (s : state W)
    (text : str * bool -> str) :
  caveat_items formulae casks <> [] ->
  completion_order (length (caveat_items formulae casks)) sched ->
  (forall item, item ∈ caveat_items formulae casks -> exists rc,
      shell_capture adapter (caveat_command brew item) (world s)
      = Ret (mkCompleted rc (text item))) ->
  exists entries,
    collect_caveats_parallel adapter sched brew formulae casks s
    = (Ret entries, add_log s [collecting_record])
    /\ entries ≡ₚ omap (fun item => caveat_entry item (text item))
                       (caveat_items formulae casks).
Proof.
  intros Hne Hs Hret.
  rewrite (collect_caveats_nonempty adapter sched brew formulae casks s Hne).
  cbn zeta.
  destruct (entries_of_futures brew _ (world s) text Hret) as [Hnone Hent].
  assert (as_completed sched
            (caveat_futures adapter brew (caveat_items formulae casks) (world s))
          ≡ₚ caveat_futures adapter brew (caveat_items formulae casks) (world s))
    as Hperm by (apply as_completed_perm; by rewrite length_caveat_futures).
  assert (first_raise (as_completed sched
            (caveat_futures adapter brew (caveat_items formulae casks) (world s)))
          = None) as ->.
  { apply first_raise_None. rewrite Hperm. by apply first_raise_None. }
  eexists. split; [reflexivity|].
  rewrite <- Hent. unfold entries_of. by rewrite Hperm.
Qed.

(** C7: when the batch is not empty and every caveat command prints its
    text, the collector returns, in some order, exactly one entry for each
    submitted formula and cask whose text is non-empty after [strip]; the
    entry pairs the name, under "formula" or "cask", with the stripped
    text; an item whose text is empty or white space only has no entry. *)
Theorem collector_returns_nonempty_caveats sched brew formulae casks
    (s : state W) (text : str * bool -> str) :
  let items := ((fun name => (name, false)) <$> formulae)
               ++ ((fun name => (name, true)) <$> casks) in
  items <> [] ->
  completion_order (length items) sched ->
  (forall item, item ∈ items -> exists rc,
      shell_capture adapter (caveat_command brew item) (world s)
      = Ret (mkCompleted rc (text item))) ->
  exists entries,
    collect_caveats_parallel adapter sched brew formulae casks s
    = (Ret entries, add_log s [collecting_record])
    /\ entries ≡ₚ omap (fun item => caveat_entry item (text item)) items
    /\ (forall item, item ∈ items -> blank (text item) ->
        forall entry, entry ∈ entries ->
          entry !! 0%nat
          <> Some (if item.2 then lit "cask" else lit "formula", item.1)).
Proof.
  intros items Hne Hs Hret.
  change items with (caveat_items formulae casks) in *.
  destruct (collect_caveats_returns sched brew formulae casks s text Hne Hs Hret)
    as (entries & Hrun & Hall).
  exists entries. split; [exact Hrun|]. split; [exact Hall|].
  intros [name is_cask] Hitem Hempty%strip_nil entry Hentry Hfirst.
  rewrite Hall in Hentry. apply list_elem_of_omap in Hentry.
  destruct Hentry as ([name' is_cask'] & Hitem' & Hsome).
  unfold caveat_entry in Hsome. cbn in *.
  destruct (strip (text (name', is_cask'))) as [|c rest] eqn:Hstrip; [done|].
  injection Hsome as <-. cbn in Hfirst.
  injection Hfirst as Hkind Hname. subst name'.
  assert (is_cask' = is_cask) as ->
    by (destruct is_cask, is_cask'; first [done | by vm_compute in Hkind]).
  by rewrite Hempty in Hstrip.
Qed.

End BatchClaims.

(** ** The installed-check of a cask *)

Section InstalledCheck.
Context {W : Type} (adapter : Adapter W).

(** The probe when each of its queries completes: the three answers are
    combined with "or". *)
Lemma is_cask_installed_returns brew name (w : W) listing details home
    in_apps in_home :
  shell_capture adapter (brew ++ lit " list --cask") w = Ret listing ->
  shell_capture adapter (brew ++ lit " info --cask " ++ name) w = Ret details ->
  path_home adapter w = Ret home ->
  path_exists adapter (lit "/Applications/" ++ name ++ lit ".app") w = Ret in_apps ->
  path_exists adapter (home ++ lit "/Applications/" ++ name ++ lit ".app") w
    = Ret in_home ->
  is_cask_installed adapter brew name w
  = Ret (bool_decide (name ∈ splitlines (stdout listing))
         || negb (contains (lit "Not installed") (stdout details))
         || (in_apps || in_home)).
Proof.
  intros Hl Hd Hh Ha Hu. unfold is_cask_installed, run_capture.
  cbn [py_any fmap list_fmap]. run_step.
  rewrite Hl. cbn. destruct (bool_decide _); [done|].
  rewrite Hd. cbn. destruct (negb _); [done|].
  rewrite Hh, Ha. cbn. destruct in_apps; [done|].
  rewrite Hu. by destruct in_home.
Qed.

(** A signal that is evaluated and positive decides the probe, whatever the
    later queries would do. *)
Lemma listed_cask_is_installed brew name (w : W) listing :
  shell_capture adapter (brew ++ lit " list --cask") w = Ret listing ->
  name ∈ splitlines (stdout listing) ->
  is_cask_installed adapter brew name w = Ret true.
Proof.
  intros Hl Hin. unfold is_cask_installed, run_capture.
  cbn [py_any fmap list_fmap]. run_step.
  rewrite Hl. cbn. by rewrite bool_decide_eq_true_2.
Qed.

(** C3: when the listing, the info text and the two path tests are
    available, the installed-check returns true exactly when the name is a
    line of the cask listing, or the info text does not contain
    "Not installed", or one of the two application bundles exists; otherwise
    it returns false.  A cask with a positive signal is then left out of the
    to-install list of any batch that contains it. *)
Theorem installed_check_is_or_of_signals brew name (w : W) listing details home
    in_apps in_home :
  shell_capture adapter (brew ++ lit " list --cask") w = Ret listing ->
  shell_capture adapter (brew ++ lit " info --cask " ++ name) w = Ret details ->
  path_home adapter w = Ret home ->
  path_exists adapter (lit "/Applications/" ++ name ++ lit ".app") w = Ret in_apps ->
  path_exists adapter (home ++ lit "/Applications/" ++ name ++ lit ".app") w
    = Ret in_home ->
  let signal :=
    name ∈ splitlines (stdout listing)
    \/ ~ substring (lit "Not installed") (stdout details)
    \/ in_apps = true \/ in_home = true in
  (is_cask_installed adapter brew name w = Ret true <-> signal)
  /\ (is_cask_installed adapter brew name w = Ret false <-> ~ signal)
  /\ (signal ->
      forall sched casks (s : state W),
        world s = w -> name ∈ casks -> completion_order (length casks) sched ->
        exists to_install s',
          filter_missing_casks_parallel adapter sched brew casks s
          = (Ret to_install, s')
          /\ name ∉ to_install).
Proof.
  intros Hl Hd Hh Ha Hu signal.
  pose proof (is_cask_installed_returns brew name w _ _ _ _ _ Hl Hd Hh Ha Hu) as Heq.
  assert (bool_decide (name ∈ splitlines (stdout listing))
          || negb (contains (lit "Not installed") (stdout details))
          || (in_apps || in_home) = true <-> signal) as Hsig.
  { unfold signal.
    rewrite !orb_true_iff, negb_true_iff, bool_decide_eq_true.
    rewrite <- contains_substring, not_true_iff_false. tauto. }
  assert (is_cask_installed adapter brew name w = Ret true <-> signal) as Htrue.
  { rewrite Heq, <- Hsig. split; [by intros [= ->]|by intros ->]. }
  split; [exact Htrue|]. split.
  - rewrite Heq, <- Hsig. split.
    + intros [= ->]. done.
    + intros Hn. f_equal. by apply not_true_is_false.
  - intros Hpos sched casks s <- Hin Hs.
    assert (casks <> []) as Hne by (intros ->; by apply not_elem_of_nil in Hin).
    rewrite (filter_missing_nonempty adapter sched brew casks s Hne).
    eexists _, _. split; [reflexivity|].
    rewrite missing_of_completed by done.
    rewrite list_elem_of_filter. intros [Hnot _]. apply Hnot.
    apply Htrue in Hpos. by rewrite Hpos.
Qed.

End InstalledCheck.

(** ** The mutating steps *)

Section Steps.
Context {W : Type} (adapter : Adapter W).

Lemma batched_call cmd attempted succ err emsg (s : state W) :
  try_except (run_live adapter cmd true;; extend succ attempted)
             (extend err attempted;; log_error emsg) s
  = (Ret tt, after_batched_call adapter cmd attempted succ err emsg s).
Proof.
  unfold after_batched_call, run_live, extend, log_error, logging. run_step.
  destruct (shell_live adapter cmd (world s)) as [[p|e] w']; cbn; [|done].
  by destruct (returncode p =? 0)%Z.
Qed.

Lemma after_batched_call_issued cmd attempted succ err emsg (s : state W) :
  issued (after_batched_call adapter cmd attempted succ err emsg s)
  = issued s ++ [cmd].
Proof.
  unfold after_batched_call.
  destruct (shell_live adapter cmd (world s)) as [o w'].
  by destruct (call_ok o).
Qed.

Lemma after_batched_call_heap cmd attempted succ err emsg (s : state W) :
  heap (after_batched_call adapter cmd attempted succ err emsg s)
  = alter (fun old => old ++ attempted)
          (if call_ok (shell_live adapter cmd (world s)).1 then succ else err)
          (heap s).
Proof.
  unfold after_batched_call.
  destruct (shell_live adapter cmd (world s)) as [o w']. cbn.
  by destruct (call_ok o).
Qed.

Lemma after_batched_call_printed cmd attempted succ err emsg (s : state W) :
  printed_out (after_batched_call adapter cmd attempted succ err emsg s)
  = printed_out s.
Proof.
  unfold after_batched_call.
  destruct (shell_live adapter cmd (world s)) as [o w'].
  by destruct (call_ok o).
Qed.

Lemma not_listed_set (listing : str) (names : list str) :
  filter (fun name => name ∉ (list_to_set (splitlines listing) : gset (list N))) names
  = not_listed listing names.
Proof.
  unfold not_listed. apply list_filter_iff. intros name.
  by rewrite elem_of_list_to_set.
Qed.

Lemma install_formulae_returns brew formulae res (s : state W) listing :
  shell_capture adapter (brew ++ lit " list --formula") (world s) = Ret listing ->
  let attempted := not_listed (stdout listing) formulae in
  install_formulae adapter brew formulae res s
  = (Ret tt,
     if truthy attempted
     then after_batched_call adapter
            (brew ++ lit " install " ++ join (lit " ") attempted) attempted
            (i_formula (install (success res))) (i_formula (install (error res)))
            (lit "Failed to install one or more formulae.")
            (add_log s [info_record (lit "Installing formulae: "
                                     ++ join (lit " ") attempted ++ lit " " ++ [0x1f4e6])])
     else s).
Proof.
  intros Hl attempted. unfold install_formulae, run_capture. run_step.
  rewrite Hl. cbn. rewrite not_listed_set. fold attempted.
  destruct (truthy attempted); [|done].
  exact (batched_call (brew ++ lit " install " ++ join (lit " ") attempted)
           attempted _ _ _ (add_log s [info_record _])).
Qed.

Lemma install_casks_returns sched brew casks res (s : state W) :
  casks <> [] ->
  let attempted :=
    missing_of (as_completed sched (cask_futures adapter brew casks (world s))) in
  let s1 :=
    add_log s (checking_record ::
               warnings_of (as_completed sched (cask_futures adapter brew casks (world s)))) in
  install_casks adapter sched brew casks res s
  = (Ret tt,
     if truthy attempted
     then after_batched_call adapter
            (brew ++ lit " install --cask " ++ join (lit " ") attempted) attempted
            (i_cask (install (success res))) (i_cask (install (error res)))
            (lit "Failed to install one or more casks.")
            (add_log s1 [info_record (lit "Installing casks: "
                                      ++ join (lit " ") attempted ++ lit " " ++ [0x1f37a])])
     else s1).
Proof.
  intros Hne attempted s1. unfold install_casks. run_step.
  rewrite (filter_missing_nonempty adapter sched brew casks s Hne).
  fold attempted. fold s1.
  destruct (truthy attempted); [|done].
  exact (batched_call (brew ++ lit " install --cask " ++ join (lit " ") attempted)
           attempted _ _ _ (add_log s1 [info_record _])).
Qed.

Lemma update_and_upgrade_returns brew res (s : state W) p w1 listing :
  shell_live adapter (brew ++ lit " update") (world s) = (Ret p, w1) ->
  shell_capture adapter (brew ++ lit " outdated --formula --quiet") w1 = Ret listing ->
  let attempted := splitlines (stdout listing) in
  let s1 :=
    mkState w1 (heap s)
      ((log s ++ [info_record (lit "Updating Homebrew... " ++ [0x1f504])])
       ++ [info_record (lit "Checking for outdated formulae... " ++ [0x1f4c8])])
      (issued s ++ [brew ++ lit " update"]) (printed_out s) in
  update_and_upgrade adapter brew res s
  = (Ret tt,
     if truthy attempted
     then after_batched_call adapter
            (brew ++ lit " upgrade " ++ join (lit " ") attempted) attempted
            (u_formula (upgrade (success res))) (u_formula (upgrade (error res)))
            (lit "One or more upgrades failed.")
            (add_log s1 [info_record (lit "Upgrading: " ++ join (lit " ") attempted
                                      ++ lit " " ++ [0x23eb])])
     else add_log s1 [info_record (lit "No formulae to upgrade. " ++ [0x1f44d])]).
Proof.
  intros Hu Hl attempted s1.
  unfold update_and_upgrade, run_capture. run_step.
  unfold run_live at 1. cbn. rewrite Hu. cbn.
  rewrite Hl. cbn. fold attempted.
  destruct (truthy attempted).
  - exact (batched_call (brew ++ lit " upgrade " ++ join (lit " ") attempted)
             attempted _ _ _ (add_log s1 [info_record _])).
  - reflexivity.
Qed.

End Steps.

(** ** Claims about the mutating steps *)

Lemma one_call_or_none_after {W} (adapter : Adapter W) cmd attempted succ err
    emsg (s : state W) records :
  one_call_or_none adapter cmd attempted succ err (world s) (issued s) (heap s)
    (if truthy attempted
     then after_batched_call adapter cmd attempted succ err emsg (add_log s records)
     else s).
Proof.
  destruct attempted as [|a attempted]; cbn; [done|].
  by rewrite after_batched_call_issued, after_batched_call_heap.
Qed.

Section StepClaims.
Context {W : Type} (adapter : Adapter W).

(** C10: when the formula listing is available, the formulae attempted are
    the configured names that are not a line of the listing, in the order of
    the configuration: they are the names of the one install command and
    the names recorded.  For a name that is not empty and holds no line
    boundary, being a line of the listing is occurring in it as a whole
    line.  Nothing else of the adapter matters: any adapter that prints the
    same listing leads to the same attempt. *)
Theorem formulae_attempted_are_those_not_listed brew formulae res (s : state W)
    listing :
  shell_capture adapter (brew ++ lit " list --formula") (world s) = Ret listing ->
  let attempted := filter (fun name => name ∉ splitlines (stdout listing)) formulae in
  attempted `sublist_of` formulae
  /\ (forall name, name ∈ attempted
        <-> name ∈ formulae /\ name ∉ splitlines (stdout listing))
  /\ (forall name, name <> [] -> no_linebreak name ->
        (name ∈ attempted
         <-> name ∈ formulae /\ ~ whole_line name (stdout listing)))
  /\ forall (other : Adapter W) (s2 : state W) listing2,
       shell_capture other (brew ++ lit " list --formula") (world s2) = Ret listing2 ->
       stdout listing2 = stdout listing ->
       exists s2',
         install_formulae other brew formulae res s2 = (Ret tt, s2')
         /\ one_call_or_none other
              (brew ++ lit " install " ++ join (lit " ") attempted) attempted
              (i_formula (install (success res))) (i_formula (install (error res)))
              (world s2) (issued s2) (heap s2) s2'.
Proof.
  intros Hl attempted. split; [apply sublist_filter|].
  assert (forall name, name ∈ attempted
            <-> name ∈ formulae /\ name ∉ splitlines (stdout listing)) as Hin
    by (intros name; unfold attempted; rewrite list_elem_of_filter; tauto).
  split; [exact Hin|]. split.
  - intros name Hne Hname. rewrite Hin.
    by rewrite (splitlines_whole_line name (stdout listing) Hne Hname).
  - intros other s2 listing2 Hl2 Hsame.
    rewrite (install_formulae_returns other brew formulae res s2 listing2 Hl2).
    unfold not_listed. rewrite Hsame. fold attempted.
    eexists. split; [reflexivity|]. apply one_call_or_none_after.
Qed.

(** C8, as amended: each mutating step issues one batched command for its
    whole to-process subset when that subset is not empty, and the outcome
    of that one call sends every attempted name to the step's success list
    or every attempted name to its error list; a step with nothing to
    process issues no install or upgrade command and records nothing. *)
Theorem step_is_one_batched_call_or_none brew res :
  (forall (s : state W) p w1 listing,
      shell_live adapter (brew ++ lit " update") (world s) = (Ret p, w1) ->
      shell_capture adapter (brew ++ lit " outdated --formula --quiet") w1
        = Ret listing ->
      let attempted := splitlines (stdout listing) in
      exists s',
        update_and_upgrade adapter brew res s = (Ret tt, s')
        /\ one_call_or_none adapter
             (brew ++ lit " upgrade " ++ join (lit " ") attempted) attempted
             (u_formula (upgrade (success res))) (u_formula (upgrade (error res)))
             w1 (issued s ++ [brew ++ lit " update"]) (heap s) s')
  /\ (forall (s : state W) formulae listing,
      shell_capture adapter (brew ++ lit " list --formula") (world s) = Ret listing ->
      let attempted :=
        filter (fun name => name ∉ splitlines (stdout listing)) formulae in
      exists s',
        install_formulae adapter brew formulae res s = (Ret tt, s')
        /\ one_call_or_none adapter
             (brew ++ lit " install " ++ join (lit " ") attempted) attempted
             (i_formula (install (success res))) (i_formula (install (error res)))
             (world s) (issued s) (heap s) s')
  /\ (forall (s : state W) sched casks,
      casks <> [] ->
      completion_order (length casks) sched ->
      exists attempted s',
        attempted
          ≡ₚ filter (fun name =>
                       ¬ confirmed (is_cask_installed adapter brew name (world s)))
                    casks
        /\ install_casks adapter sched brew casks res s = (Ret tt, s')
        /\ one_call_or_none adapter
             (brew ++ lit " install --cask " ++ join (lit " ") attempted) attempted
             (i_cask (install (success res))) (i_cask (install (error res)))
             (world s) (issued s) (heap s) s').
Proof.
  split; [|split].
  - intros s p w1 listing Hu Hl attempted.
    rewrite (update_and_upgrade_returns adapter brew res s p w1 listing Hu Hl).
    fold attempted. eexists. split; [reflexivity|].
    destruct attempted as [|a attempted]; cbn; [done|].
    by rewrite after_batched_call_issued, after_batched_call_heap.
  - intros s formulae listing Hl attempted.
    rewrite (install_formulae_returns adapter brew formulae res s listing Hl).
    eexists. split; [reflexivity|]. apply one_call_or_none_after.
  - intros s sched casks Hne Hs.
    rewrite (install_casks_returns adapter sched brew casks res s Hne).
    eexists _, _. split; [by apply missing_of_completed|].
    split; [reflexivity|].
    destruct (missing_of _) as [|a attempted]; cbn; [done|].
    by rewrite after_batched_call_issued, after_batched_call_heap.
Qed.

End StepClaims.

(** ** The report and the run *)

Section KeepsPrinted.
Context {W : Type} (adapter : Adapter W).

Lemma keeps_bind {A B} (m : Step W A) (k : A -> Step W B) :
  keeps_printed m -> (forall a, keeps_printed (k a)) -> keeps_printed (m ≫= k).
Proof.
  intros Hm Hk s. run_step. specialize (Hm s).
  destruct (m s) as [[a|e] s1]; cbn in *; [|done].
  by rewrite Hk.
Qed.

Lemma keeps_ret {A} (a : A) : keeps_printed (mret a : Step W A).
Proof. done. Qed.

Lemma keeps_try_except {A} (body handler : Step W A) :
  keeps_printed body -> keeps_printed handler ->
  keeps_printed (try_except body handler).
Proof.
  intros Hb Hh s. run_step. specialize (Hb s).
  destruct (body s) as [[a|e] s1]; cbn in *; [done|].
  by rewrite Hh.
Qed.

Lemma keeps_logging lv text : keeps_printed (logging lv text : Step W unit).
Proof. done. Qed.

Lemma keeps_extend l names : keeps_printed (extend l names : Step W unit).
Proof. done. Qed.

Lemma keeps_query {A} (q : Query W A) : keeps_printed (query q).
Proof. done. Qed.

Lemma keeps_run_live cmd check : keeps_printed (run_live adapter cmd check).
Proof.
  intros s. unfold run_live.
  by destruct (shell_live adapter cmd (world s)).
Qed.

End KeepsPrinted.

Ltac keeps_printed_tac :=
  repeat first
    [ apply keeps_bind; [|intros ?]
    | apply keeps_try_except
    | apply keeps_ret
    | apply keeps_logging
    | apply keeps_extend
    | apply keeps_query
    | apply keeps_run_live
    | match goal with
      | |- keeps_printed (if ?b then _ else _) => destruct b
      end ].

Section Run.
Context {W : Type} (adapter : Adapter W).

Lemma print_result_returns (res : Report) (s : state W) :
  let res' := mkReport (alias_cask (success res)) (alias_cask (error res)) (info res) in
  print_result res s
  = (Ret res',
     mkState (world s) (heap s)
             (log s ++ [info_record ([0x1f4ca] ++ lit " Final result:")])
             (issued s)
             ((printed_out s ++ [Blank]) ++ [Dump (json_of_result (heap s) res')])).
Proof. reflexivity. Qed.

Lemma json_get_cask_views h (o e : outcome_lists) entries :
  let doc := json_of_result h (mkReport (alias_cask o) (alias_cask e) entries) in
  json_get [lit "success"; lit "cask"] doc = Some (json_names h (i_cask (install o)))
  /\ json_get [lit "success"; lit "install"; lit "cask"] doc
     = Some (json_names h (i_cask (install o)))
  /\ json_get [lit "error"; lit "cask"] doc = Some (json_names h (i_cask (install e)))
  /\ json_get [lit "error"; lit "install"; lit "cask"] doc
     = Some (json_names h (i_cask (install e))).
Proof. repeat split; reflexivity. Qed.

(** C6: whatever was recorded before, [print_result] prints a document in
    which "success.cask" and "error.cask" show the lists of
    "success.install.cask" and "error.install.cask"; in the dictionary it
    leaves, each alias key holds the very list object of its source key, so
    that a later change of that list shows under both keys. *)
Theorem printed_aliases_equal_sources (res : Report) (s : state W) :
  exists res' doc,
    print_result res s
    = (Ret res',
       mkState (world s) (heap s)
               (log s ++ [info_record ([0x1f4ca] ++ lit " Final result:")])
               (issued s) ((printed_out s ++ [Blank]) ++ [Dump doc]))
    /\ json_get [lit "success"; lit "cask"] doc
       = Some (json_names (heap s) (i_cask (install (success res))))
    /\ json_get [lit "success"; lit "install"; lit "cask"] doc
       = Some (json_names (heap s) (i_cask (install (success res))))
    /\ json_get [lit "error"; lit "cask"] doc
       = Some (json_names (heap s) (i_cask (install (error res))))
    /\ json_get [lit "error"; lit "install"; lit "cask"] doc
       = Some (json_names (heap s) (i_cask (install (error res))))
    /\ cask (success res') = i_cask (install (success res'))
    /\ cask (error res') = i_cask (install (error res'))
    /\ install (success res') = install (success res)
    /\ install (error res') = install (error res)
    /\ forall (s2 : state W) names,
         let s3 := (extend (i_cask (install (success res'))) names s2).2 in
         deref (heap s3) (cask (success res'))
         = deref (heap s3) (i_cask (install (success res'))).
Proof.
  eexists _, _. split; [apply print_result_returns|].
  destruct (json_get_cask_views (heap s) (success res) (error res) (info res))
    as (Hsc & Hsic & Hec & Heic).
  do 4 (split; [assumption|]).
  do 4 (split; [reflexivity|]).
  intros s2 names s3. reflexivity.
Qed.

Lemma new_report_printed (s : state W) :
  printed_out (new_report s).2 = printed_out s.
Proof. reflexivity. Qed.

Lemma new_report_returns (s : state W) :
  exists res, (new_report s).1 = Ret res.
Proof. eexists. reflexivity. Qed.

Lemma update_and_upgrade_printed brew res (s : state W) :
  printed_out (update_and_upgrade adapter brew res s).2 = printed_out s.
Proof. revert s. unfold update_and_upgrade. keeps_printed_tac. Qed.

Lemma install_formulae_printed brew formulae res (s : state W) :
  printed_out (install_formulae adapter brew formulae res s).2 = printed_out s.
Proof. revert s. unfold install_formulae. keeps_printed_tac. Qed.

Lemma install_casks_empty sched brew res (s : state W) :
  install_casks adapter sched brew [] res s
  = (Raise (ValueError (lit "max_workers must be greater than 0")),
     add_log s [checking_record]).
Proof. reflexivity. Qed.

(** C9 (the code departs from the claim): a run whose configuration names no
    cask gets past configuration loading and tool discovery and then ends
    with an exception: whatever the adapter does, the exit status is 1 and
    nothing is printed, so no report appears. *)
Theorem run_without_casks_prints_no_report sched_casks sched_caveats brew
    formulae (s : state W) :
  exists s',
    exit_status adapter sched_casks sched_caveats brew formulae [] s = (1%Z, s')
    /\ printed_out s' = printed_out s.
Proof.
  unfold exit_status, main, mbind, M_bind, m_bind.
  pose proof (new_report_printed s) as Hp0.
  destruct (new_report_returns s) as [res Hres].
  destruct (new_report s) as [o0 s0]. cbn in Hres, Hp0. subst o0.
  pose proof (update_and_upgrade_printed brew res s0) as Hp1.
  destruct (update_and_upgrade adapter brew res s0) as [[[]|e1] s1]; cbn in Hp1.
  2: { eexists. split; [reflexivity|congruence]. }
  pose proof (install_formulae_printed brew formulae res s1) as Hp2.
  destruct (install_formulae adapter brew formulae res s1) as [[[]|e2] s2];
    cbn in Hp2.
  2: { eexists. split; [reflexivity|congruence]. }
  rewrite install_casks_empty.
  eexists. split; [reflexivity|]. cbn. congruence.
Qed.

End Run.

(** ** A run that reaches the report *)

Section RunReports.
Context {W : Type} (adapter : Adapter W).

Lemma update_and_upgrade_continues brew res (s : state W) :
  queries_answer adapter brew ->
  exists s', update_and_upgrade adapter brew res s = (Ret tt, s')
             /\ printed_out s' = printed_out s.
Proof.
  intros [Hq Hu].
  destruct (Hu (world s)) as [p Hp].
  destruct (shell_live adapter (brew ++ lit " update") (world s)) as [o w1] eqn:Hlive.
  cbn in Hp. subst o.
  destruct (Hq (brew ++ lit " outdated --formula --quiet") w1) as [r Hr].
  pose proof (update_and_upgrade_printed adapter brew res s) as Hprinted.
  rewrite (update_and_upgrade_returns adapter brew res s p w1 r Hlive Hr) in *.
  eexists. split; [reflexivity|exact Hprinted].
Qed.

Lemma install_formulae_continues brew formulae res (s : state W) :
  queries_answer adapter brew ->
  exists s', install_formulae adapter brew formulae res s = (Ret tt, s')
             /\ printed_out s' = printed_out s.
Proof.
  intros [Hq _].
  destruct (Hq (brew ++ lit " list --formula") (world s)) as [r Hr].
  pose proof (install_formulae_printed adapter brew formulae res s) as Hprinted.
  rewrite (install_formulae_returns adapter brew formulae res s r Hr) in *.
  eexists. split; [reflexivity|exact Hprinted].
Qed.

Lemma install_casks_continues sched brew casks res (s : state W) :
  casks <> [] ->
  exists s', install_casks adapter sched brew casks res s = (Ret tt, s')
             /\ printed_out s' = printed_out s.
Proof.
  intros Hne. rewrite (install_casks_returns adapter sched brew casks res s Hne).
  eexists. split; [reflexivity|].
  destruct (truthy _); [|done]. by rewrite after_batched_call_printed.
Qed.

Lemma collect_caveats_continues sched brew formulae casks (s : state W) :
  queries_answer adapter brew ->
  casks <> [] ->
  completion_order (length (caveat_items formulae casks)) sched ->
  exists entries,
    collect_caveats_parallel adapter sched brew formulae casks s
    = (Ret entries, add_log s [collecting_record]).
Proof.
  intros [Hq _] Hne Hs.
  assert (exists text : list N * bool -> list N,
             forall item, exists rc,
               shell_capture adapter (caveat_command brew item) (world s)
               = Ret (mkCompleted rc (text item))) as [text Htext].
  { exists (fun item =>
              match shell_capture adapter (caveat_command brew item) (world s) with
              | Ret r => stdout r
              | Raise _ => []
              end).
    intros item. destruct (Hq (caveat_command brew item) (world s)) as [[rc out] Hr].
    exists rc. by rewrite Hr. }
  destruct (collect_caveats_returns adapter sched brew formulae casks s text)
    as (entries & Hrun & _); [|done|by intros item _|by exists entries].
  unfold caveat_items. destruct casks; [done|]. by destruct formulae.
Qed.

(** With at least one cask configured and queries that answer, the run
    prints its report and ends with status zero, however the upgrade and
    install commands end; the printed aliases show their source lists. *)
Theorem run_prints_report sched_casks sched_caveats brew formulae casks
    (s : state W) :
  queries_answer adapter brew ->
  casks <> [] ->
  completion_order (length casks) sched_casks ->
  completion_order (length (caveat_items formulae casks)) sched_caveats ->
  exists s' doc source_success source_error,
    exit_status adapter sched_casks sched_caveats brew formulae casks s = (0%Z, s')
    /\ printed_out s' = (printed_out s ++ [Blank]) ++ [Dump doc]
    /\ json_get [lit "success"; lit "install"; lit "cask"] doc = Some source_success
    /\ json_get [lit "success"; lit "cask"] doc = Some source_success
    /\ json_get [lit "error"; lit "install"; lit "cask"] doc = Some source_error
    /\ json_get [lit "error"; lit "cask"] doc = Some source_error.
Proof.
  intros Hq Hne Hs1 Hs2.
  unfold exit_status, main, mbind, M_bind, m_bind.
  pose proof (new_report_printed s) as Hp0.
  destruct (new_report_returns s) as [res Hres].
  destruct (new_report s) as [o0 s0]. cbn in Hres, Hp0. subst o0.
  destruct (update_and_upgrade_continues brew res s0 Hq) as (s1 & -> & Hp1).
  destruct (install_formulae_continues brew formulae res s1 Hq) as (s2 & -> & Hp2).
  destruct (install_casks_continues sched_casks brew casks res s2 Hne)
    as (s3 & -> & Hp3).
  destruct (collect_caveats_continues sched_caveats brew formulae casks s3 Hq Hne Hs2)
    as (entries & ->).
  rewrite (print_result_returns (mkReport (success res) (error res) entries)
             (add_log s3 [collecting_record])).
  destruct (json_get_cask_views (heap s3) (success res) (error res) entries)
    as (Hsc & Hsic & Hec & Heic).
  eexists _, (json_of_result (heap s3)
                (mkReport (alias_cask (success res)) (alias_cask (error res)) entries)),
    _, _.
  split; [reflexivity|].
  split; [cbn; by rewrite Hp3, Hp2, Hp1, Hp0|]. by repeat split.
Qed.

End RunReports.

(** ** The batch runners only read *)

Section ReadOnly.
Context {W : Type} (adapter : Adapter W).






End ReadOnly.

(** ** What [strip] leaves *)

Lemma lstrip_split s : exists before, s = before ++ lstrip s /\ blank before.
Proof.
  induction s as [|c s (before & Heq & Hb)]; cbn.
  - exists []. split; [done|constructor].
  - destruct (is_space c) eqn:Hc.
    + exists (c :: before). split; [by rewrite Heq at 1|by constructor].
    + exists []. split; [done|constructor].
Qed.

Lemma rstrip_split s : exists after, s = rstrip s ++ after /\ blank after.
Proof.
  unfold rstrip. destruct (lstrip_split (rev s)) as (before & Heq & Hb).
  exists (rev before). split.
  - rewrite <- rev_app_distr, <- Heq. by rewrite rev_involutive.
  - by apply Forall_rev.
Qed.

Lemma rstrip_last s r c : rstrip s = r ++ [c] -> is_space c = false.
Proof.
  unfold rstrip. intros Heq. apply (f_equal (@rev _)) in Heq.
  rewrite rev_involutive, rev_app_distr in Heq. cbn in Heq.
  by apply lstrip_head in Heq.
Qed.

Lemma strip_split s :
  exists before after, s = before ++ strip s ++ after /\ blank before /\ blank after.
Proof.
  unfold strip. destruct (lstrip_split s) as (before & Heq & Hb).
  destruct (rstrip_split (lstrip s)) as (after & Heq' & Ha).
  exists before, after. split; [|done]. by rewrite <- Heq'.
Qed.

Lemma strip_first s c r : strip s = c :: r -> is_space c = false.
Proof.
  unfold strip. intros Heq.
  destruct (rstrip_split (lstrip s)) as (after & Heq' & _).
  rewrite Heq in Heq'. cbn in Heq'. by apply lstrip_head in Heq'.
Qed.

Lemma strip_last s r c : strip s = r ++ [c] -> is_space c = false.
Proof. unfold strip. apply rstrip_last. Qed.

(** ** More on the probes *)

Section Probes.
Context {W : Type} (adapter : Adapter W).

(** X3: the three checks of a cask run in order and stop at the first
    positive one: a listed cask is installed whatever the later queries would
    do; so is an unlisted cask whose info text lacks "Not installed",
    whatever the exit status of the info command and whatever the path
    tests would do.  A query that raises before a positive check makes the
    whole check raise, whatever the later checks would find. *)
Theorem installed_check_stops_at_first_signal brew name (w : W) :
  (forall listing,
      shell_capture adapter (brew ++ lit " list --cask") w = Ret listing ->
      name ∈ splitlines (stdout listing) ->
      is_cask_installed adapter brew name w = Ret true)
  /\ (forall listing status text,
      shell_capture adapter (brew ++ lit " list --cask") w = Ret listing ->
      name ∉ splitlines (stdout listing) ->
      shell_capture adapter (brew ++ lit " info --cask " ++ name) w
        = Ret (mkCompleted status text) ->
      ~ substring (lit "Not installed") text ->
      is_cask_installed adapter brew name w = Ret true)
  /\ (forall e,
      shell_capture adapter (brew ++ lit " list --cask") w = Raise e ->
      is_cask_installed adapter brew name w = Raise e)
  /\ (forall listing e,
      shell_capture adapter (brew ++ lit " list --cask") w = Ret listing ->
      name ∉ splitlines (stdout listing) ->
      shell_capture adapter (brew ++ lit " info --cask " ++ name) w = Raise e ->
      is_cask_installed adapter brew name w = Raise e).
Proof.
  repeat split.
  - intros listing Hl Hin. unfold is_cask_installed, run_capture.
    cbn [py_any fmap list_fmap]. run_step.
    rewrite Hl. cbn. by rewrite bool_decide_eq_true_2.
  - intros listing status text Hl Hnin Hd Hsub.
    unfold is_cask_installed, run_capture.
    cbn [py_any fmap list_fmap]. run_step.
    rewrite Hl. cbn. rewrite bool_decide_eq_false_2 by done.
    rewrite Hd. cbn.
    destruct (contains (lit "Not installed") text) eqn:Hc; [|done].
    by apply contains_substring in Hc.
  - intros e Hl. unfold is_cask_installed, run_capture.
    cbn [py_any fmap list_fmap]. run_step. by rewrite Hl.
  - intros listing e Hl Hnin Hd. unfold is_cask_installed, run_capture.
    cbn [py_any fmap list_fmap]. run_step.
    rewrite Hl. cbn. rewrite bool_decide_eq_false_2 by done.
    by rewrite Hd.
Qed.

(** X4: the caveat probe ignores the exit status of its command and trims
    the text: for a text of white space only it returns nothing; otherwise
    its entry holds the part of the text between the leading and the
    trailing white space, which is not empty and neither starts nor ends
    with white space. *)
Theorem caveat_entry_is_trimmed brew name is_cask (w : W) status text :
  shell_capture adapter (caveat_command brew (name, is_cask)) w
    = Ret (mkCompleted status text) ->
  (blank text /\ get_caveat adapter brew name is_cask w = Ret None)
  \/ exists before caveat after,
       text = before ++ caveat ++ after /\ blank before /\ blank after
       /\ caveat <> []
       /\ (forall c r, caveat = c :: r -> is_space c = false)
       /\ (forall r c, caveat = r ++ [c] -> is_space c = false)
       /\ get_caveat adapter brew name is_cask w
          = Ret (Some [(if is_cask then lit "cask" else lit "formula", name);
                       (lit "caveat", caveat)]).
Proof.
  intros Hc. rewrite (get_caveat_returns adapter brew name is_cask w status text Hc).
  unfold caveat_entry. cbn.
  destruct (strip text) as [|c r] eqn:Hs.
  - left. split; [by apply strip_nil|done].
  - right. destruct (strip_split text) as (before & after & Heq & Hb & Ha).
    exists before, (c :: r), after. rewrite <- Hs.
    split; [done|]. split; [done|]. split; [done|].
    split; [by rewrite Hs|].
    split; [intros c' r' Heq'; by apply (strip_first text c' r')|].
    split; [intros r' c' Heq'; by apply (strip_last text r' c')|done].
Qed.

End Probes.

(** ** The run as a whole *)


Section WholeRun.
Context {W : Type} (adapter : Adapter W).











(** X7: a query of a step that raises is not caught: when the formula
    listing raises, [install_formulae] raises the same exception and leaves
    the state as it was; when [brew update] or the query for outdated
    formulae raises, [update_and_upgrade] raises the same exception after
    issuing [brew update] only, and records nothing. *)
Theorem query_failures_leave_steps brew res (s : state W) e :
  (forall formulae,
      shell_capture adapter (brew ++ lit " list --formula") (world s) = Raise e ->
      install_formulae adapter brew formulae res s = (Raise e, s))
  /\ (forall w1,
      shell_live adapter (brew ++ lit " update") (world s) = (Raise e, w1) ->
      exists s',
        update_and_upgrade adapter brew res s = (Raise e, s')
        /\ heap s' = heap s /\ issued s' = issued s ++ [brew ++ lit " update"])
  /\ (forall p w1,
      shell_live adapter (brew ++ lit " update") (world s) = (Ret p, w1) ->
      shell_capture adapter (brew ++ lit " outdated --formula --quiet") w1 = Raise e ->
      exists s',
        update_and_upgrade adapter brew res s = (Raise e, s')
        /\ heap s' = heap s /\ issued s' = issued s ++ [brew ++ lit " update"]).
Proof.
  repeat split.
  - intros formulae Hl. unfold install_formulae, run_capture. run_step.
    by rewrite Hl.
  - intros w1 Hu. unfold update_and_upgrade, run_capture. run_step.
    unfold run_live at 1. cbn. rewrite Hu. cbn. by eexists.
  - intros p w1 Hu Hl. unfold update_and_upgrade, run_capture. run_step.
    unfold run_live at 1. cbn. rewrite Hu. cbn. rewrite Hl. cbn. by eexists.
Qed.

End WholeRun.

(** ** Start-up *)

Ltac boot_step :=
  unfold mbind, mret, Boot_bind, Boot_ret, b_bind, b_ret, step, ask, read,
    stop_with, sys_exit, query in *; cbn in *.

Section StartUpFacts.
Context {W : Type} (adapter : Adapter W) (host : Host W).

Lemma found_truthy p : found p = true -> truthy (default [] p) = true.
Proof. by destruct p. Qed.

Lemma brew_or_fallback_eq brew (s : state W) :
  brew_or_fallback adapter host brew s
  = match brew with
    | Some p =>
        if truthy p then
          match path_exists adapter p (world s) with
          | Ret true => (Goes p, s)
          | Ret false => fallback_ending host s
          | Raise e => (Stops (Uncaught e), s)
          end
        else fallback_ending host s
    | None => fallback_ending host s
    end.
Proof.
  assert (forall p : option str,
            (if found p
             then fun s0 : state W => (Goes (default [] p), s0)
             else fun s0 : state W =>
                    (Stops (SystemExit 1), add_log s0 [not_found_record])) s
            = match p with
              | Some q => if truthy q then (Goes q, s)
                          else (Stops (SystemExit 1), add_log s [not_found_record])
              | None => (Stops (SystemExit 1), add_log s [not_found_record])
              end) as Hfall.
  { intros [q|]; cbn; [|done]. by destruct (truthy q). }
  unfold brew_or_fallback, fallback_ending. boot_step.
  destruct brew as [p|]; cbn; [|apply Hfall].
  destruct (truthy p); cbn; [|apply Hfall].
  destruct (path_exists adapter p (world s)) as [[|]|e]; cbn;
    [done|apply Hfall|done].
Qed.

Lemma fallback_ending_cases (s : state W) :
  (exists p, fallback_ending host s = (Goes p, s) /\ truthy p = true)
  \/ fallback_ending host s = (Stops (SystemExit 1), add_log s [not_found_record]).
Proof.
  unfold fallback_ending.
  destruct (shutil_which host (lit "brew") (world s)) as [q|]; [|by right].
  destruct (truthy q) eqn:Hq; [left; by exists q|by right].
Qed.

Lemma brew_or_fallback_cases brew (s : state W) :
  (exists p, brew_or_fallback adapter host brew s = (Goes p, s) /\ truthy p = true)
  \/ brew_or_fallback adapter host brew s
     = (Stops (SystemExit 1), add_log s [not_found_record])
  \/ (exists e, brew_or_fallback adapter host brew s = (Stops (Uncaught e), s)).
Proof.
  rewrite brew_or_fallback_eq.
  pose proof (fallback_ending_cases s) as Hfall.
  destruct brew as [p|]; [|tauto].
  destruct (truthy p) eqn:Hp; [|tauto].
  destruct (path_exists adapter p (world s)) as [[|]|e]; [|tauto|].
  - left. by exists p.
  - right. right. by exists e.
Qed.

Lemma brew_path_cases (s : state W) :
  (exists p, brew_path adapter host s = (Goes p, s) /\ truthy p = true)
  \/ brew_path adapter host s = (Stops (SystemExit 1), add_log s [not_found_record])
  \/ (exists e, brew_path adapter host s = (Stops (Uncaught e), s)).
Proof.
  unfold brew_path.
  unfold mbind, Boot_bind, b_bind, read. cbn -[brew_or_fallback].
  repeat case_bool_decide; cbn -[brew_or_fallback];
    apply brew_or_fallback_cases.
Qed.

(** X8: [brew_path] never returns an empty path: it returns a non-empty
    path and changes nothing, or logs that Homebrew was not found and ends
    the process with status 1, or lets the exception of its path test
    through.  So the branch of [main] that installs Homebrew when
    [brew_path] returns nothing is never taken: locating [brew] is
    [brew_path] alone, and it issues no command. *)
Theorem bootstrap_is_never_run (s : state W) :
  locate_brew adapter host s = brew_path adapter host s
  /\ issued (locate_brew adapter host s).2 = issued s
  /\ ((exists p, brew_path adapter host s = (Goes p, s) /\ truthy p = true)
      \/ brew_path adapter host s
         = (Stops (SystemExit 1), add_log s [not_found_record])
      \/ (exists e, brew_path adapter host s = (Stops (Uncaught e), s))).
Proof.
  pose proof (brew_path_cases s) as Hcases.
  assert (locate_brew adapter host s = brew_path adapter host s) as Heq.
  { unfold locate_brew, mbind, Boot_bind, b_bind.
    destruct Hcases as [(p & -> & Hp)|[->|(e & ->)]]; [|done|done].
    by rewrite Hp. }
  split; [exact Heq|]. split; [|exact Hcases].
  rewrite Heq. by destruct Hcases as [(p & -> & Hp)|[->|(e & ->)]].
Qed.

(** *** The place of [brew] *)

Lemma default_brew_truthy arch p : default_brew arch = Some p -> truthy p = true.
Proof.
  unfold default_brew. repeat case_bool_decide; intros [= <-]; reflexivity.
Qed.

Lemma brew_path_from_default (s : state W) :
  brew_path adapter host s
  = match default_brew (platform_machine host (world s)) with
    | Some p => brew_or_fallback adapter host (Some p) s
    | None => brew_or_fallback adapter host
                (shutil_which host (lit "brew") (world s)) s
    end.
Proof.
  unfold brew_path, default_brew.
  unfold mbind, Boot_bind, b_bind, read. cbn -[brew_or_fallback].
  by repeat case_bool_decide.
Qed.

(** X9: where [brew_path] looks.  On an arm64 or x86_64 machine the
    expected place is tried first and, if it exists, returned whatever is on
    [PATH]; if it does not exist, or on another machine, the executable
    [shutil.which] finds is returned; only when that finds nothing does the
    process end, with status 1 and one ERROR record. *)
Theorem brew_path_prefers_expected_place (s : state W) :
  let w := world s in
  let expected := default_brew (platform_machine host w) in
  let on_path := shutil_which host (lit "brew") w in
  (forall p, expected = Some p -> path_exists adapter p w = Ret true ->
             brew_path adapter host s = (Goes p, s))
  /\ (forall p q, expected = Some p -> path_exists adapter p w = Ret false ->
                  on_path = Some q -> truthy q = true ->
                  brew_path adapter host s = (Goes q, s))
  /\ (forall q b, expected = None -> on_path = Some q -> truthy q = true ->
                  path_exists adapter q w = Ret b ->
                  brew_path adapter host s = (Goes q, s))
  /\ (found on_path = false ->
      expected = None
      \/ (exists p, expected = Some p /\ path_exists adapter p w = Ret false) ->
      brew_path adapter host s
      = (Stops (SystemExit 1), add_log s [not_found_record])).
Proof.
  cbn zeta. rewrite brew_path_from_default.
  split; [|split; [|split]].
  - intros p Hexp Hp. rewrite Hexp, brew_or_fallback_eq.
    by rewrite (default_brew_truthy _ _ Hexp), Hp.
  - intros p q Hexp Hp Hq Htq. rewrite Hexp, brew_or_fallback_eq.
    rewrite (default_brew_truthy _ _ Hexp), Hp.
    unfold fallback_ending. by rewrite Hq, Htq.
  - intros q b Hexp Hq Htq Hb. rewrite Hexp, Hq, brew_or_fallback_eq.
    rewrite Htq, Hb. destruct b; [done|].
    unfold fallback_ending. by rewrite Hq, Htq.
  - intros Hnone Hexp.
    assert (fallback_ending host s
            = (Stops (SystemExit 1), add_log s [not_found_record])) as Hfall.
    { unfold fallback_ending.
      destruct (shutil_which host (lit "brew") (world s)) as [q|]; [|done].
      cbn in Hnone. by rewrite Hnone. }
    destruct Hexp as [Hexp|(p & Hexp & Hp)]; rewrite Hexp, brew_or_fallback_eq.
    + destruct (shutil_which host (lit "brew") (world s)) as [q|]; [|done].
      cbn in Hnone. by rewrite Hnone.
    + by rewrite (default_brew_truthy _ _ Hexp), Hp.
Qed.

(** *** What the start-up leaves *)

Lemma ends_well_bind {A C} (P : A -> Prop) (Q : W -> C -> state W -> Prop)
    (m : Boot W A) (k : A -> Boot W C) :
  ends_well (unchanged P) m ->
  (forall a, P a -> ends_well Q (k a)) ->
  ends_well Q (m ≫= k).
Proof.
  intros Hm Hk s. specialize (Hm s).
  unfold mbind, Boot_bind, b_bind.
  destruct (m s) as [[a|why] s1]; cbn in *; [|done].
  destruct Hm as (Hi & Hp & Hw & Ha).
  specialize (Hk a Ha s1). rewrite Hi, Hp, Hw in Hk.
  exact Hk.
Qed.

Lemma ends_well_weaken {A} (P P' : A -> Prop) (m : Boot W A) :
  (forall a, P a -> P' a) ->
  ends_well (unchanged (W:=W) P) m -> ends_well (unchanged P') m.
Proof.
  intros HP Hm s. destruct (Hm s) as (? & ? & Hrest).
  split; [done|]. split; [done|].
  destruct ((m s).1); [|done]. destruct Hrest. split; auto.
Qed.

Lemma ends_well_ret {A} (P : A -> Prop) (a : A) :
  P a -> ends_well (unchanged (W:=W) P) (mret a).
Proof. by intros Ha s. Qed.

Lemma ends_well_stop {A} (P : A -> Prop) why :
  status_of why = 1%Z -> ends_well (unchanged (W:=W) P) (stop_with why).
Proof. by intros Hwhy s. Qed.

Lemma ends_well_read {A} (f : W -> A) :
  ends_well (unchanged (fun _ => True)) (read f).
Proof. by intros s. Qed.

Lemma ends_well_ask {A} (q : Query W A) :
  ends_well (unchanged (fun _ => True)) (ask q).
Proof. intros s. unfold ask, step, query. by destruct (q (world s)). Qed.

Lemma ends_well_logging lv text :
  ends_well (unchanged (fun _ => True)) (step (logging (W:=W) lv text)).
Proof. by intros s. Qed.

Lemma ends_well_new_report :
  ends_well (unchanged (fun _ => True)) (step (new_report (W:=W))).
Proof. by intros s. Qed.

Lemma ends_well_py_get data key default :
  ends_well (unchanged (W:=W) (fun _ => True)) (py_get data key default).
Proof. intros s. by destruct data. Qed.

Lemma ends_well_assert_lists data key :
  ends_well (unchanged (W:=W) (fun _ => True)) (assert_lists data key).
Proof.
  unfold assert_lists.
  eapply ends_well_bind; [apply ends_well_py_get|].
  intros v _. destruct v; by (apply ends_well_ret || apply ends_well_stop).
Qed.

Lemma ends_well_require_macos :
  ends_well (unchanged (fun _ => True)) (require_macos host).
Proof.
  unfold require_macos.
  eapply ends_well_bind; [apply ends_well_read|].
  intros system _. case_bool_decide; [|by apply ends_well_ret].
  eapply ends_well_bind; [apply ends_well_logging|].
  intros _ _. by apply ends_well_stop.
Qed.

Lemma ends_well_parse_config path :
  ends_well (unchanged (fun _ => True)) (parse_config adapter host path).
Proof.
  unfold parse_config.
  eapply ends_well_bind; [apply ends_well_ask|].
  intros [|] _; cbn; [apply ends_well_ask|].
  eapply ends_well_bind; [apply ends_well_logging|].
  intros _ _. by apply ends_well_stop.
Qed.

Lemma ends_well_brew_path :
  ends_well (unchanged (fun p => truthy p = true)) (brew_path adapter host).
Proof.
  intros s.
  destruct (brew_path_cases s) as [(p & -> & Hp)|[->|(e & ->)]]; by cbn.
Qed.

Lemma locate_brew_is_brew_path (s : state W) :
  locate_brew adapter host s = brew_path adapter host s.
Proof.
  unfold locate_brew, mbind, Boot_bind, b_bind.
  destruct (brew_path_cases s) as [(p & -> & Hp)|[->|(e & ->)]]; [|done|done].
  by rewrite Hp.
Qed.

Lemma ends_well_locate_brew :
  ends_well (unchanged (fun p => truthy p = true)) (locate_brew adapter host).
Proof.
  intros s. rewrite locate_brew_is_brew_path. apply ends_well_brew_path.
Qed.

(** X10: whatever the machine and the configuration file, the start-up
    issues no command and prints nothing.  When it hands over to the steps,
    the path of [brew] is not empty and the machine differs from the one it
    started on by the directory of [brew] put in front of [PATH]; when it
    stops, the machine is untouched and the status of the process is 1. *)
Theorem startup_touches_only_PATH (s : state W) :
  issued (startup adapter host s).2 = issued s
  /\ printed_out (startup adapter host s).2 = printed_out s
  /\ match (startup adapter host s).1 with
     | Goes (_, _, _, brew) =>
         truthy brew = true
         /\ exists old,
              environ_PATH host (world s) = Some old
              /\ world (startup adapter host s).2
                 = set_environ_PATH host
                     (path_parent host brew ++ lit ":" ++ old) (world s)
     | Stops why =>
         world (startup adapter host s).2 = world s /\ status_of why = 1%Z
     end.
Proof.
  revert s.
  change (ends_well
            (fun w (r : pyvalue * pyvalue * Report * str) s' =>
               let '(_, _, _, brew) := r in
               truthy brew = true
               /\ exists old,
                    environ_PATH host w = Some old
                    /\ world s'
                       = set_environ_PATH host
                           (path_parent host brew ++ lit ":" ++ old) w)
            (startup adapter host)).
  unfold startup.
  eapply ends_well_bind; [apply ends_well_require_macos|]. intros _ _.
  eapply ends_well_bind; [apply ends_well_logging|]. intros _ _.
  eapply ends_well_bind; [apply ends_well_parse_config|]. intros config _.
  eapply ends_well_bind; [apply ends_well_assert_lists|]. intros _ _.
  eapply ends_well_bind; [apply ends_well_assert_lists|]. intros _ _.
  eapply ends_well_bind; [apply ends_well_py_get|]. intros formulae _.
  eapply ends_well_bind; [apply ends_well_py_get|]. intros casks _.
  eapply ends_well_bind; [apply ends_well_new_report|]. intros res _.
  eapply ends_well_bind; [apply ends_well_locate_brew|]. intros brew Hbrew.
  intros s. unfold mbind, Boot_bind, b_bind, prepend_to_PATH.
  destruct (environ_PATH host (world s)) as [old|]; cbn; [|done].
  repeat split; [done|]. by exists old.
Qed.

(** *** How the start-up ends *)

Lemma require_macos_eq (s : state W) :
  require_macos host s
  = if bool_decide (platform_system host (world s) = lit "Darwin")
    then (Goes tt, s)
    else (Stops (SystemExit 1), add_log s [macos_only_record]).
Proof.
  unfold require_macos. boot_step.
  case_bool_decide as Hne; case_bool_decide as Heq; done.
Qed.

Lemma parse_config_eq (s : state W) :
  parse_config adapter host (lit "config.json") s
  = match path_exists adapter (lit "config.json") (world s) with
    | Ret true =>
        match json_load host (lit "config.json") (world s) with
        | Ret data => (Goes data, s)
        | Raise e => (Stops (Uncaught e), s)
        end
    | Ret false => (Stops (SystemExit 1), add_log s [missing_config_record])
    | Raise e => (Stops (Uncaught e), s)
    end.
Proof.
  unfold parse_config. boot_step.
  destruct (path_exists adapter (lit "config.json") (world s)) as [[|]|e];
    cbn; [|done|done].
  by destruct (json_load host (lit "config.json") (world s)).
Qed.

Lemma assert_lists_eq data key (s : state W) :
  assert_lists data key s
  = match data with
    | PDict members =>
        if is_list (get_list key members) then (Goes tt, s)
        else (Stops (must_be_a_list key), s)
    | _ => (Stops (no_get data), s)
    end.
Proof.
  unfold assert_lists. destruct data; try done.
  boot_step. unfold get_list. by destruct (from_option id (PList []) _).
Qed.

Lemma brew_path_of_world (s s' : state W) brew :
  world s = world s' ->
  brew_path adapter host s = (Goes brew, s) ->
  brew_path adapter host s' = (Goes brew, s').
Proof.
  intros Hw. rewrite !brew_path_from_default, <- Hw.
  destruct (default_brew (platform_machine host (world s))) as [p|];
    rewrite !brew_or_fallback_eq; unfold fallback_ending; rewrite <- Hw;
    repeat case_match; intros [=]; by subst.
Qed.

Ltac startup_step :=
  unfold startup, mbind, Boot_bind, b_bind;
  rewrite ?require_macos_eq.

(** X11: the inputs the start-up refuses.  Off macOS the process ends with
    status 1 after one ERROR record, before anything else is logged.  A
    missing [config.json] ends it with status 1 after an ERROR record.  A
    configuration file that cannot be read or parsed, one whose content is
    no dictionary, and one whose "formula" or "cask" is no list end it with
    an exception that nothing catches: no ERROR record is logged. *)
Theorem startup_refuses_bad_input (s : state W) :
  let w := world s in
  let config := lit "config.json" in
  (platform_system host w <> lit "Darwin" ->
   startup adapter host s
   = (Stops (SystemExit 1), add_log s [macos_only_record]))
  /\ (platform_system host w = lit "Darwin" ->
      path_exists adapter config w = Ret false ->
      startup adapter host s
      = (Stops (SystemExit 1),
         add_log s [starting_record; missing_config_record]))
  /\ (forall e,
        platform_system host w = lit "Darwin" ->
        path_exists adapter config w = Ret true ->
        json_load host config w = Raise e ->
        startup adapter host s
        = (Stops (Uncaught e), add_log s [starting_record]))
  /\ (forall data,
        platform_system host w = lit "Darwin" ->
        path_exists adapter config w = Ret true ->
        json_load host config w = Ret data ->
        is_dict data = false ->
        startup adapter host s
        = (Stops (no_get data), add_log s [starting_record]))
  /\ (forall members key,
        platform_system host w = lit "Darwin" ->
        path_exists adapter config w = Ret true ->
        json_load host config w = Ret (PDict members) ->
        (key = lit "formula"
         \/ key = lit "cask"
            /\ is_list (get_list (lit "formula") members) = true) ->
        is_list (get_list key members) = false ->
        startup adapter host s
        = (Stops (must_be_a_list key), add_log s [starting_record])).
Proof.
  cbn zeta.
  split; [|split; [|split; [|split]]].
  - intros Hsys. startup_step. by rewrite bool_decide_false.
  - intros Hsys Hcfg. startup_step. rewrite bool_decide_true by done.
    cbn -[parse_config]. rewrite parse_config_eq. cbn. rewrite Hcfg.
    unfold add_log. cbn. by rewrite <- app_assoc.
  - intros e Hsys Hcfg Hload. startup_step. rewrite bool_decide_true by done.
    cbn -[parse_config]. rewrite parse_config_eq. cbn. by rewrite Hcfg, Hload.
  - intros data Hsys Hcfg Hload Hdict. startup_step.
    rewrite bool_decide_true by done.
    cbn -[parse_config assert_lists]. rewrite parse_config_eq. cbn -[assert_lists].
    rewrite Hcfg, Hload, assert_lists_eq. by destruct data.
  - intros members key Hsys Hcfg Hload Hkey Hlist. startup_step.
    rewrite bool_decide_true by done.
    cbn -[parse_config assert_lists]. rewrite parse_config_eq. cbn -[assert_lists].
    rewrite Hcfg, Hload, assert_lists_eq.
    destruct Hkey as [->|[-> Hformula]].
    + by rewrite Hlist.
    + rewrite Hformula, assert_lists_eq. by rewrite Hlist.
Qed.

(** X12: what the start-up hands to the steps.  On macOS, with a
    [config.json] that holds a dictionary whose "formula" and "cask" are
    lists or missing, a [brew] that is found and a [PATH] that is set, the
    start-up goes on with the two lists as they are in the file, the empty
    list for a missing key, the fresh report dictionary and the path of
    [brew]; it logs its first line only and puts the directory of [brew]
    in front of [PATH]. *)
Theorem startup_hands_over_configuration (s : state W) members brew old :
  platform_system host (world s) = lit "Darwin" ->
  path_exists adapter (lit "config.json") (world s) = Ret true ->
  json_load host (lit "config.json") (world s) = Ret (PDict members) ->
  is_list (get_list (lit "formula") members) = true ->
  is_list (get_list (lit "cask") members) = true ->
  brew_path adapter host s = (Goes brew, s) ->
  environ_PATH host (world s) = Some old ->
  exists res s1,
    new_report (add_log s [starting_record]) = (Ret res, s1)
    /\ startup adapter host s
       = (Goes (get_list (lit "formula") members,
                get_list (lit "cask") members, res, brew),
          with_PATH host brew old s1).
Proof.
  intros Hsys Hcfg Hload Hformula Hcask Hbrew Hpath.
  destruct (new_report (add_log s [starting_record])) as [r s1] eqn:Hnew.
  assert (exists res, r = Ret res /\ world s1 = world s) as (res & -> & Hw).
  { revert Hnew. unfold new_report. run_step. intros [= <- <-]. by eexists. }
  exists res, s1. split; [done|].
  startup_step. rewrite bool_decide_true by done.
  cbn -[parse_config assert_lists new_report locate_brew prepend_to_PATH].
  rewrite parse_config_eq.
  cbn -[assert_lists new_report locate_brew prepend_to_PATH].
  rewrite Hcfg, Hload, assert_lists_eq, Hformula, assert_lists_eq, Hcask.
  cbn -[new_report locate_brew prepend_to_PATH].
  change ({| world := world s; heap := heap s;
             log := log s ++ [_]; issued := issued s;
             printed_out := printed_out s |})
    with (add_log s [starting_record]).
  unfold step at 1. rewrite Hnew, locate_brew_is_brew_path.
  rewrite (brew_path_of_world s s1 brew) by done.
  unfold prepend_to_PATH, with_PATH. by rewrite Hw, Hpath.
Qed.

End StartUpFacts.

(** ** Exit statuses that nothing looks at *)

Section Statuses.
Context {W : Type} (adapter : Adapter W).

Lemma not_listed_nothing (names : list str) : not_listed [] names = names.
Proof.
  unfold not_listed. induction names as [|name names IH]; [done|].
  rewrite filter_cons_True; [by rewrite IH|]. cbn. apply not_elem_of_nil.
Qed.

(** X13: the exit statuses of [brew update], [brew outdated] and
    [brew list] are not looked at.  Whatever the status of the update and of
    the query, when the query prints no line [update_and_upgrade] returns,
    records nothing and logs that there is nothing to upgrade; and when the
    listing prints nothing, whatever its status, [install_formulae] attempts
    every configured formula in one call. *)
Theorem failed_queries_pass_unnoticed brew res (s : state W) :
  (forall p w1 listing,
      shell_live adapter (brew ++ lit " update") (world s) = (Ret p, w1) ->
      shell_capture adapter (brew ++ lit " outdated --formula --quiet") w1
        = Ret listing ->
      splitlines (stdout listing) = [] ->
      update_and_upgrade adapter brew res s
      = (Ret tt,
         mkState w1 (heap s)
           (log s ++ [info_record (lit "Updating Homebrew... " ++ [0x1f504]);
                      info_record (lit "Checking for outdated formulae... "
                                   ++ [0x1f4c8]);
                      info_record (lit "No formulae to upgrade. " ++ [0x1f44d])])
           (issued s ++ [brew ++ lit " update"]) (printed_out s)))
  /\ (forall formulae listing,
      shell_capture adapter (brew ++ lit " list --formula") (world s)
        = Ret listing ->
      stdout listing = [] ->
      formulae <> [] ->
      install_formulae adapter brew formulae res s
      = (Ret tt,
         after_batched_call adapter
           (brew ++ lit " install " ++ join (lit " ") formulae) formulae
           (i_formula (install (success res))) (i_formula (install (error res)))
           (lit "Failed to install one or more formulae.")
           (add_log s [info_record (lit "Installing formulae: "
                                    ++ join (lit " ") formulae
                                    ++ lit " " ++ [0x1f4e6])]))).
Proof.
  split.
  - intros p w1 listing Hupdate Hquery Hnone.
    rewrite (update_and_upgrade_returns adapter brew res s p w1 listing Hupdate Hquery).
    cbn zeta. rewrite Hnone. cbn. unfold add_log. cbn.
    by rewrite <- !app_assoc.
  - intros formulae listing Hlisting Hnone Hsome.
    rewrite (install_formulae_returns adapter brew formulae res s listing Hlisting).
    cbn zeta. rewrite Hnone, not_listed_nothing.
    by destruct formulae.
Qed.

End Statuses.

(** ** The theorems at concrete inputs *)

Ltac by_computation := apply (bool_decide_unpack _); vm_compute; exact I.

(** Item 3 of 5 fails: the exception leaves the collector. *)
Lemma caveat_probe_failure_escapes_witness :
  exists e',
    collect_caveats_parallel Demo.adapter [2; 0; 4; 1; 3]%nat Demo.brew
      [lit "git"; lit "wget"; lit "broken"; lit "jq"; lit "curl"] []
      (Demo.start Demo.bare)
    = (Raise e', add_log (Demo.start Demo.bare) [collecting_record]).
Proof.
  apply (caveat_probe_failure_escapes Demo.adapter _ _ _ _ _ (lit "broken") false
           (AdapterError (lit "UnicodeDecodeError"))).
  - unfold completion_order. by_computation.
  - by_computation.
  - vm_compute. reflexivity.
Defined.

(** The bundle on disk is the only positive signal for "iterm2". *)
Lemma installed_check_is_or_of_signals_witness :
  is_cask_installed Demo.adapter Demo.brew (lit "iterm2") bundle_only = Ret true
  /\ exists to_install s',
       filter_missing_casks_parallel Demo.adapter [1; 0]%nat Demo.brew
         [lit "firefox"; lit "iterm2"] (Demo.start bundle_only)
       = (Ret to_install, s')
       /\ lit "iterm2" ∉ to_install.
Proof.
  destruct (installed_check_is_or_of_signals Demo.adapter Demo.brew (lit "iterm2")
              bundle_only (mkCompleted 0 [])
              (mkCompleted 0 (lit "iterm2: 1.0" ++ [10] ++ lit "Not installed"))
              (lit "/Users/me") true false)
    as (Htrue & _ & Hfilter); try (vm_compute; reflexivity).
  assert (lit "iterm2" ∈ splitlines (stdout (mkCompleted 0 []))
          \/ ~ substring (lit "Not installed")
                (stdout (mkCompleted 0 (lit "iterm2: 1.0" ++ [10] ++ lit "Not installed")))
          \/ true = true \/ false = true) as Hsignal by (right; right; by left).
  split; [by apply Htrue|].
  apply (Hfilter Hsignal); [reflexivity|by_computation|].
  unfold completion_order. by_computation.
Defined.

(** The check of "broken" raises: it is attempted, with a warning. *)
Lemma failed_check_is_attempted_with_warning_witness :
  exists to_install s',
    filter_missing_casks_parallel Demo.adapter [1; 0]%nat Demo.brew
      [lit "iterm2"; lit "broken"] (Demo.start Demo.bare)
    = (Ret to_install, s')
    /\ lit "broken" ∈ to_install
    /\ length (filter (fun c => c = lit "broken") to_install)
       = length (filter (fun c => c = lit "broken") [lit "iterm2"; lit "broken"])
    /\ failed_check_record (lit "broken") ∈ log s'.
Proof.
  apply (failed_check_is_attempted_with_warning Demo.adapter _ _ _ _ _
           (AdapterError (lit "UnicodeDecodeError"))).
  - unfold completion_order. by_computation.
  - by_computation.
  - vm_compute. reflexivity.
Defined.

(** No cask: an exception.  Three casks, one installed and one whose check
    raises: two to install. *)
Lemma filter_accounts_for_each_cask_witness :
  (exists e s',
      filter_missing_casks_parallel Demo.adapter [] Demo.brew []
        (Demo.start some_installed) = (Raise e, s'))
  /\ exists to_install s',
       filter_missing_casks_parallel Demo.adapter [2; 0; 1]%nat Demo.brew
         [lit "iterm2"; lit "firefox"; lit "broken"] (Demo.start some_installed)
       = (Ret to_install, s')
       /\ to_install ≡ₚ [lit "iterm2"; lit "broken"]
       /\ to_install ++ [lit "firefox"]
          ≡ₚ [lit "iterm2"; lit "firefox"; lit "broken"].
Proof.
  split.
  - apply (filter_accounts_for_each_cask Demo.adapter [] Demo.brew []
             (Demo.start some_installed)).
    unfold completion_order. by_computation.
  - apply (filter_accounts_for_each_cask Demo.adapter [2; 0; 1]%nat Demo.brew
             [lit "iterm2"; lit "firefox"; lit "broken"] (Demo.start some_installed)).
    unfold completion_order. by_computation.
Defined.

(** Only "git" has a caveat. *)
Lemma collector_returns_nonempty_caveats_witness :
  exists entries,
    collect_caveats_parallel Demo.adapter [2; 0; 1]%nat Demo.brew
      [lit "git"; lit "wget"] [lit "iterm2"] (Demo.start Demo.bare)
    = (Ret entries, add_log (Demo.start Demo.bare) [collecting_record])
    /\ entries ≡ₚ [[(lit "formula", lit "git"); (lit "caveat", lit "Caveat: ...")]]
    /\ forall entry, entry ∈ entries ->
         entry !! 0%nat <> Some (lit "formula", lit "wget").
Proof.
  destruct (collector_returns_nonempty_caveats Demo.adapter [2; 0; 1]%nat Demo.brew
              [lit "git"; lit "wget"] [lit "iterm2"] (Demo.start Demo.bare)
              git_caveat) as (entries & Hrun & Hperm & Hnone).
  - done.
  - unfold completion_order. by_computation.
  - intros item Hin. exists 0%Z. cbn in Hin.
    repeat (apply elem_of_cons in Hin as [-> | Hin]; [vm_compute; reflexivity|]).
    by apply not_elem_of_nil in Hin.
  - exists entries. split; [exact Hrun|]. split; [exact Hperm|].
    apply (Hnone (lit "wget", false)); [by_computation|constructor].
Defined.

(** "git" is listed: "wget" and "jq" are attempted, in that order. *)
Lemma formulae_attempted_are_those_not_listed_witness :
  [lit "wget"; lit "jq"] `sublist_of` [lit "wget"; lit "git"; lit "jq"]
  /\ exists s',
       install_formulae Demo.adapter Demo.brew [lit "wget"; lit "git"; lit "jq"]
         Demo.report (Demo.ready some_installed) = (Ret tt, s')
       /\ issued s' = [Demo.brew ++ lit " install wget jq"]
       /\ heap s' !! 0%nat = Some [lit "wget"; lit "jq"].
Proof.
  destruct (formulae_attempted_are_those_not_listed Demo.adapter Demo.brew
              [lit "wget"; lit "git"; lit "jq"] Demo.report
              (Demo.ready some_installed)
              (mkCompleted 0 (lit "git" ++ [10])))
    as (Hsub & _ & _ & Hother); [vm_compute; reflexivity|].
  split; [exact Hsub|].
  destruct (Hother Demo.adapter (Demo.ready some_installed)
              (mkCompleted 0 (lit "git" ++ [10])))
    as (s' & Hrun & Hissued & Hheap); [vm_compute; reflexivity|reflexivity|].
  exists s'. split; [exact Hrun|]. split; [exact Hissued|].
  rewrite Hheap. vm_compute. reflexivity.
Defined.

(** One upgrade command for "jq"; no install command when "git" is listed;
    one failing install command for the two missing casks. *)
Lemma step_is_one_batched_call_or_none_witness :
  (exists s',
      update_and_upgrade Demo.adapter Demo.brew Demo.report
        (Demo.ready some_installed) = (Ret tt, s')
      /\ issued s' = [Demo.brew ++ lit " update"; Demo.brew ++ lit " upgrade jq"]
      /\ heap s' !! 2%nat = Some [lit "jq"])
  /\ (exists s',
      install_formulae Demo.adapter Demo.brew [lit "git"] Demo.report
        (Demo.ready some_installed) = (Ret tt, s')
      /\ issued s' = [] /\ heap s' = heap (Demo.ready some_installed))
  /\ (exists attempted s',
      attempted ≡ₚ [lit "iterm2"; lit "broken"]
      /\ install_casks Demo.adapter [2; 1; 0]%nat Demo.brew
           [lit "iterm2"; lit "firefox"; lit "broken"] Demo.report
           (Demo.ready casks_failing) = (Ret tt, s')
      /\ issued s' = [Demo.brew ++ lit " install --cask " ++ join (lit " ") attempted]
      /\ heap s' !! 5%nat = Some attempted
      /\ heap s' !! 1%nat = Some []).
Proof.
  destruct (step_is_one_batched_call_or_none Demo.adapter Demo.brew Demo.report)
    as (Hupgrade & Hformulae & Hcasks).
  split; [|split].
  - destruct (Hupgrade (Demo.ready some_installed) (mkCompleted 0 []) some_installed
                (mkCompleted 0 (lit "jq" ++ [10])))
      as (s' & Hrun & Hissued & Hheap); [reflexivity|vm_compute; reflexivity|].
    exists s'. split; [exact Hrun|]. split; [exact Hissued|].
    rewrite Hheap. vm_compute. reflexivity.
  - destruct (Hformulae (Demo.ready some_installed) [lit "git"]
                (mkCompleted 0 (lit "git" ++ [10])))
      as (s' & Hrun & Hissued & Hheap); [vm_compute; reflexivity|].
    exists s'. split; [exact Hrun|]. split; [exact Hissued|exact Hheap].
  - destruct (Hcasks (Demo.ready casks_failing) [2; 1; 0]%nat
                [lit "iterm2"; lit "firefox"; lit "broken"])
      as (attempted & s' & Hperm & Hrun & Hone); [done| |].
    { unfold completion_order. by_computation. }
    exists attempted, s'. split; [exact Hperm|]. split; [exact Hrun|].
    destruct attempted as [|a attempted].
    { apply Permutation_nil_cons in Hperm. destruct Hperm. }
    destruct Hone as [Hissued Hheap].
    split; [exact Hissued|]. rewrite Hheap. cbn.
    split; vm_compute; reflexivity.
Defined.

(** With "git" listed, the formula step issues no command at all. *)
Lemma install_formulae_without_call_counterexample :
  issued (install_formulae Demo.adapter Demo.brew [lit "git"] Demo.report
            (Demo.ready some_installed)).2 = []
  /\ ~ issues_exactly_one_call
         (install_formulae Demo.adapter Demo.brew [lit "git"] Demo.report)
         (Demo.ready some_installed).
Proof.
  split; [vm_compute; reflexivity|].
  intros [cmd Hcmd].
  assert (issued (install_formulae Demo.adapter Demo.brew [lit "git"] Demo.report
                    (Demo.ready some_installed)).2 = []) as Hnone
    by (vm_compute; reflexivity).
  rewrite Hnone in Hcmd. cbn in Hcmd. discriminate Hcmd.
Qed.

(** ** The further properties at concrete inputs *)


(** "firefox" is listed; every query about "broken" raises. *)
Lemma installed_check_stops_at_first_signal_witness :
  is_cask_installed Demo.adapter Demo.brew (lit "firefox") some_installed = Ret true
  /\ is_cask_installed Demo.adapter Demo.brew (lit "broken") some_installed
     = Raise (AdapterError (lit "UnicodeDecodeError")).
Proof.
  destruct (installed_check_stops_at_first_signal Demo.adapter Demo.brew
              (lit "firefox") some_installed) as (Hlisted & _).
  destruct (installed_check_stops_at_first_signal Demo.adapter Demo.brew
              (lit "broken") some_installed) as (_ & _ & _ & Hraise).
  split.
  - apply (Hlisted (mkCompleted 0 (lit "firefox" ++ [10]))); [reflexivity|].
    by_computation.
  - apply (Hraise (mkCompleted 0 (lit "firefox" ++ [10]))); [reflexivity| |reflexivity].
    by_computation.
Defined.

(** The caveat of "git" is printed with a final line feed. *)
Lemma caveat_entry_is_trimmed_witness :
  (blank (lit "Caveat: ..." ++ [10])
   /\ get_caveat Demo.adapter Demo.brew (lit "git") false Demo.bare = Ret None)
  \/ exists before caveat after,
       lit "Caveat: ..." ++ [10] = before ++ caveat ++ after
       /\ blank before /\ blank after
       /\ caveat <> []
       /\ (forall c r, caveat = c :: r -> is_space c = false)
       /\ (forall r c, caveat = r ++ [c] -> is_space c = false)
       /\ get_caveat Demo.adapter Demo.brew (lit "git") false Demo.bare
          = Ret (Some [(lit "formula", lit "git"); (lit "caveat", caveat)]).
Proof.
  apply (caveat_entry_is_trimmed Demo.adapter Demo.brew (lit "git") false Demo.bare 0).
  reflexivity.
Defined.



(** No query answers: the formula step and the upgrade step raise, and the
    report lists are as they were. *)
Lemma query_failures_leave_steps_witness :
  install_formulae Offline.adapter Demo.brew [lit "git"] Demo.report
    (Demo.ready Demo.bare)
  = (Raise (AdapterError (lit "OSError")), Demo.ready Demo.bare)
  /\ exists s',
       update_and_upgrade Offline.adapter Demo.brew Demo.report (Demo.ready Demo.bare)
       = (Raise (AdapterError (lit "OSError")), s')
       /\ heap s' = heap (Demo.ready Demo.bare)
       /\ issued s' = issued (Demo.ready Demo.bare) ++ [Demo.brew ++ lit " update"].
Proof.
  destruct (query_failures_leave_steps Offline.adapter Demo.brew Demo.report
              (Demo.ready Demo.bare) (AdapterError (lit "OSError")))
    as (Hlisting & _ & Houtdated).
  split.
  - apply Hlisting. reflexivity.
  - apply (Houtdated (mkCompleted 0 []) Demo.bare); reflexivity.
Defined.

(** Homebrew at its place on Apple silicon; only at the place of an Intel
    Mac, and on [PATH]; nowhere. *)
Lemma brew_path_prefers_expected_place_witness :
  brew_path Mac.adapter Mac.host (Mac.start Mac.arm)
  = (Goes (lit "/opt/homebrew/bin/brew"), Mac.start Mac.arm)
  /\ brew_path Mac.adapter Mac.host (Mac.start Mac.arm_with_intel_brew)
     = (Goes (lit "/usr/local/bin/brew"), Mac.start Mac.arm_with_intel_brew)
  /\ brew_path Mac.adapter Mac.host (Mac.start Mac.intel_without_brew)
     = (Stops (SystemExit 1),
        add_log (Mac.start Mac.intel_without_brew) [not_found_record]).
Proof.
  destruct (brew_path_prefers_expected_place Mac.adapter Mac.host
              (Mac.start Mac.arm)) as (Hthere & _).
  destruct (brew_path_prefers_expected_place Mac.adapter Mac.host
              (Mac.start Mac.arm_with_intel_brew)) as (_ & Hfallback & _).
  destruct (brew_path_prefers_expected_place Mac.adapter Mac.host
              (Mac.start Mac.intel_without_brew)) as (_ & _ & _ & Hnowhere).
  split; [|split].
  - apply Hthere; vm_compute; reflexivity.
  - apply (Hfallback (lit "/opt/homebrew/bin/brew")); vm_compute; reflexivity.
  - apply Hnowhere; [reflexivity|].
    right. exists (lit "/usr/local/bin/brew"). split; vm_compute; reflexivity.
Defined.

(** A Linux machine; a Mac without [config.json]; a configuration file
    that holds a list; one whose "cask" is a string. *)
Lemma startup_refuses_bad_input_witness :
  startup Mac.adapter Mac.host (Mac.start Mac.linux)
  = (Stops (SystemExit 1), add_log (Mac.start Mac.linux) [macos_only_record])
  /\ startup Mac.adapter Mac.host (Mac.start (Mac.configured [] (Ret PNone)))
     = (Stops (SystemExit 1),
        add_log (Mac.start (Mac.configured [] (Ret PNone)))
          [starting_record; missing_config_record])
  /\ startup Mac.adapter Mac.host
       (Mac.start (Mac.configured [lit "config.json"] (Ret (PList []))))
     = (Stops (no_get (PList [])),
        add_log (Mac.start (Mac.configured [lit "config.json"] (Ret (PList []))))
          [starting_record])
  /\ startup Mac.adapter Mac.host
       (Mac.start (Mac.configured [lit "config.json"]
                     (Ret (PDict Mac.cask_is_a_string))))
     = (Stops (must_be_a_list (lit "cask")),
        add_log (Mac.start (Mac.configured [lit "config.json"]
                              (Ret (PDict Mac.cask_is_a_string))))
          [starting_record]).
Proof.
  destruct (startup_refuses_bad_input Mac.adapter Mac.host (Mac.start Mac.linux))
    as (Hlinux & _).
  destruct (startup_refuses_bad_input Mac.adapter Mac.host
              (Mac.start (Mac.configured [] (Ret PNone))))
    as (_ & Hmissing & _).
  destruct (startup_refuses_bad_input Mac.adapter Mac.host
              (Mac.start (Mac.configured [lit "config.json"] (Ret (PList [])))))
    as (_ & _ & _ & Hshape & _).
  destruct (startup_refuses_bad_input Mac.adapter Mac.host
              (Mac.start (Mac.configured [lit "config.json"]
                            (Ret (PDict Mac.cask_is_a_string)))))
    as (_ & _ & _ & _ & Hcask).
  split; [|split; [|split]].
  - apply Hlinux. vm_compute. discriminate.
  - apply Hmissing; vm_compute; reflexivity.
  - apply Hshape; vm_compute; reflexivity.
  - apply (Hcask Mac.cask_is_a_string (lit "cask")); try (vm_compute; reflexivity).
    right. split; vm_compute; reflexivity.
Defined.

(** A configuration file without "cask". *)
Lemma startup_hands_over_configuration_witness :
  exists res s1,
    new_report (add_log (Mac.start (Mac.configured
                                      [lit "config.json"; lit "/opt/homebrew/bin/brew"]
                                      (Ret (PDict Mac.formula_only))))
                  [starting_record])
    = (Ret res, s1)
    /\ startup Mac.adapter Mac.host
         (Mac.start (Mac.configured
                       [lit "config.json"; lit "/opt/homebrew/bin/brew"]
                       (Ret (PDict Mac.formula_only))))
       = (Goes (PList [PStr (lit "git")], PList [], res,
                lit "/opt/homebrew/bin/brew"),
          with_PATH Mac.host (lit "/opt/homebrew/bin/brew") (lit "/usr/bin:/bin") s1).
Proof.
  apply (startup_hands_over_configuration Mac.adapter Mac.host
           (Mac.start (Mac.configured
                         [lit "config.json"; lit "/opt/homebrew/bin/brew"]
                         (Ret (PDict Mac.formula_only))))
           Mac.formula_only (lit "/opt/homebrew/bin/brew") (lit "/usr/bin:/bin"));
    vm_compute; reflexivity.
Defined.

(** A [brew] whose every command fails: the update goes unrecorded, and
    "git" is attempted although nothing says that it is missing. *)
Lemma failed_queries_pass_unnoticed_witness :
  update_and_upgrade Broken.adapter Demo.brew Demo.report (Demo.ready some_installed)
  = (Ret tt,
     mkState some_installed (heap (Demo.ready some_installed))
       (log (Demo.ready some_installed)
        ++ [info_record (lit "Updating Homebrew... " ++ [0x1f504]);
            info_record (lit "Checking for outdated formulae... " ++ [0x1f4c8]);
            info_record (lit "No formulae to upgrade. " ++ [0x1f44d])])
       (issued (Demo.ready some_installed) ++ [Demo.brew ++ lit " update"])
       (printed_out (Demo.ready some_installed)))
  /\ install_formulae Broken.adapter Demo.brew [lit "git"] Demo.report
       (Demo.ready some_installed)
     = (Ret tt,
        after_batched_call Broken.adapter
          (Demo.brew ++ lit " install " ++ join (lit " ") [lit "git"]) [lit "git"]
          (i_formula (install (success Demo.report)))
          (i_formula (install (error Demo.report)))
          (lit "Failed to install one or more formulae.")
          (add_log (Demo.ready some_installed)
             [info_record (lit "Installing formulae: "
                           ++ join (lit " ") [lit "git"]
                           ++ lit " " ++ [0x1f4e6])])).
Proof.
  destruct (failed_queries_pass_unnoticed Broken.adapter Demo.brew Demo.report
              (Demo.ready some_installed)) as [Hupdate Hinstall].
  split.
  - apply (Hupdate (mkCompleted 1 []) some_installed (mkCompleted 1 []));
      reflexivity.
  - apply (Hinstall [lit "git"] (mkCompleted 1 [])); [reflexivity|reflexivity|done].
Defined.
